(** * SafeHarbour: the name-matching scripts, embedded and verified

    This development embeds the two Python scripts of the repository,

      - [server/scripts/ner_extract.py]  (modules [PyStr], [Py], [NerExtract])
      - [server/scripts/sanitize_pdf.py] (module [SanitizePdf])

    and proves the properties their design document states about them.

    Conventions of the embedding.

    - A Python [str] is a [string]: a sequence of code points below 256.  On
      that range [str.lower], [str.isspace], [str.strip] and [str.split]
      are modelled exactly (every lower-case mapping stays inside the range
      and has length one).
    - A value decoded by [json.loads] or handed to [json.dumps] is a
      [Py.pyval]; a dict keeps its items in insertion order.
    - A raised exception is the [Raise] case of [Py.result]; [try]/[except]
      is a [match] on it.
    - [json.loads] and the spaCy pipeline [nlp] are external: they are
      parameters of the definitions that call them. *)

From Stdlib Require Import String Ascii List ZArith NArith Bool Lia.
Import ListNotations.

Local Open Scope string_scope.
Local Open Scope list_scope.

(* ================================================================== *)
(** * Part I: the programs *)
(* ================================================================== *)

(** ** Python's [str] methods used by the scripts *)

Module PyStr.

(** [c.isspace()] for a code point below 256: TAB, LF, VT, FF, CR, the four
    separators FS GS RS US, SPACE, NEL (0x85) and NBSP (0xA0). *)
Definition isspace (c : ascii) : bool :=
  let n := N_of_ascii c in
  (((9 <=? n) && (n <=? 13)) || ((28 <=? n) && (n <=? 32))
   || (n =? 133) || (n =? 160))%N.

(** [c.lower()] for a code point below 256: [A-Z] and the Latin-1 capitals
    0xC0..0xDE (the multiplication sign 0xD7 excepted) move up by 32. *)
Definition lower_char (c : ascii) : ascii :=
  let n := N_of_ascii c in
  if (((65 <=? n) && (n <=? 90))
      || ((192 <=? n) && (n <=? 222) && negb (n =? 215)))%N
  then ascii_of_N (n + 32)
  else c.

(** [s.lower()] *)
Fixpoint lower (s : string) : string :=
  match s with
  | EmptyString => EmptyString
  | String c r => String (lower_char c) (lower r)
  end.

(** [s.lstrip()] *)
Fixpoint lstrip (s : string) : string :=
  match s with
  | EmptyString => EmptyString
  | String c r => if isspace c then lstrip r else s
  end.

(** [s.rstrip()] *)
Fixpoint rstrip (s : string) : string :=
  match s with
  | EmptyString => EmptyString
  | String c r =>
      match rstrip r with
      | EmptyString => if isspace c then EmptyString else String c EmptyString
      | r' => String c r'
      end
  end.

(** [s.strip()] *)
Definition strip (s : string) : string := rstrip (lstrip s).

(** The word being scanned is emitted when it is not empty. *)
Definition flush (word : string) : list string :=
  match word with
  | EmptyString => []
  | _ => [word]
  end.

(** The scanning loop of [s.split()]: [word] holds the characters read since
    the last whitespace character. *)
Fixpoint split_from (word : string) (s : string) : list string :=
  match s with
  | EmptyString => flush word
  | String c r =>
      if isspace c then flush word ++ split_from EmptyString r
      else split_from (word ++ String c EmptyString) r
  end.

(** [s.split()] (no separator: split on runs of whitespace, no empty
    strings in the result). *)
Definition split (s : string) : list string := split_from EmptyString s.

(** [sep.join(parts)] *)
Fixpoint join (sep : string) (parts : list string) : string :=
  match parts with
  | [] => EmptyString
  | [p] => p
  | p :: rest => p ++ sep ++ join sep rest
  end.

(** [x in parts] for a list of strings. *)
Definition contains (parts : list string) (x : string) : bool :=
  existsb (String.eqb x) parts.

End PyStr.

(** ** Python values, exceptions and the calls that may raise *)

Module Py.

(** A value as [json.loads] produces it and [json.dumps] accepts it.  The
    scripts never compute with a float, which is kept as its literal. *)
#[warnings="-register-all"] Inductive pyval : Type :=
| PNone
| PBool (b : bool)
| PInt (z : Z)
| PFloat (literal : string)
| PStr (s : string)
| PList (items : list pyval)
| PDict (items : list (string * pyval)).

(** The exceptions the scripts can meet; each carries [str(e)]. *)
Inductive exn : Type :=
| JSONDecodeError (msg : string)
| AttributeError (msg : string)
| TypeError (msg : string)
| FileNotFoundError (msg : string)
| OtherException (msg : string).

Definition str_of_exn (e : exn) : string :=
  match e with
  | JSONDecodeError m | AttributeError m | TypeError m
  | FileNotFoundError m | OtherException m => m
  end.

Inductive result (A : Type) : Type :=
| Ok (a : A)
| Raise (e : exn).
Arguments Ok {A} a.
Arguments Raise {A} e.

Definition bind {A B : Type} (r : result A) (k : A -> result B) : result B :=
  match r with
  | Ok a => k a
  | Raise e => Raise e
  end.

(** [type(v).__name__] *)
Definition type_name (v : pyval) : string :=
  match v with
  | PNone => "NoneType"
  | PBool _ => "bool"
  | PInt _ => "int"
  | PFloat _ => "float"
  | PStr _ => "str"
  | PList _ => "list"
  | PDict _ => "dict"
  end.

Definition no_attribute (v : pyval) (attr : string) : exn :=
  AttributeError ("'" ++ type_name v ++ "' object has no attribute '" ++ attr ++ "'").

Definition not_iterable (v : pyval) : exn :=
  TypeError ("'" ++ type_name v ++ "' object is not iterable").

(** Lookup of a key among the items of a dict. *)
Fixpoint assoc (key : string) (items : list (string * pyval)) : option pyval :=
  match items with
  | [] => None
  | (k, v) :: rest => if String.eqb key k then Some v else assoc key rest
  end.

(** [obj.get(key, default)]: only a dict has the method. *)
Definition get (obj : pyval) (key : string) (default : pyval) : result pyval :=
  match obj with
  | PDict items =>
      Ok (match assoc key items with
          | Some v => v
          | None => default
          end)
  | _ => Raise (no_attribute obj "get")
  end.

Fixpoint chars (s : string) : list pyval :=
  match s with
  | EmptyString => []
  | String c r => PStr (String c EmptyString) :: chars r
  end.

(** The elements [for x in obj] goes through: the items of a list, the
    characters of a string, the keys of a dict; anything else is not
    iterable. *)
Definition iter (obj : pyval) : result (list pyval) :=
  match obj with
  | PList items => Ok items
  | PStr s => Ok (chars s)
  | PDict items => Ok (map (fun kv => PStr (fst kv)) items)
  | _ => Raise (not_iterable obj)
  end.

End Py.

Import Py.

Notation "x <- c1 ;; c2" := (Py.bind c1 (fun x => c2))
  (at level 61, c1 at next level, right associativity).

(** ** [ner_extract.py] *)

Module NerExtract.

(** [normalize_name(name: str) -> str] *)
Definition normalize_name (name : string) : string :=
  PyStr.join " " (PyStr.split (PyStr.strip (PyStr.lower name))).

(** A call [normalize_name(v)] on a value that came out of a dict: the
    method call [name.lower()] raises unless [v] is a string. *)
Definition call_normalize_name (v : pyval) : result string :=
  match v with
  | PStr s => Ok (normalize_name s)
  | _ => Raise (no_attribute v "lower")
  end.

(** How a loop body ends: with a [return], or by falling through to the
    next iteration. *)
Inductive flow : Type :=
| Returned (v : pyval)
| Fallthrough.

(** Lines 63-65: [for entity_part in entity_parts:] with its [return]. *)
Fixpoint parts_loop (known : pyval) (known_parts entity_parts : list string)
  : result flow :=
  match entity_parts with
  | [] => Ok Fallthrough
  | entity_part :: rest =>
      if PyStr.contains known_parts entity_part
      then match get known "uin" PNone with
           | Ok v => Ok (Returned v)
           | Raise e => Raise e
           end
      else parts_loop known known_parts rest
  end.

(** Lines 51-67: [for known in known_names:] and the final [return None]. *)
Fixpoint known_loop (normalized_entity : string) (known_names : list pyval)
  : result pyval :=
  match known_names with
  | [] => Ok PNone
  | known :: rest =>
      match get known "name" (PStr EmptyString) with
      | Raise e => Raise e
      | Ok name =>
          match call_normalize_name name with
          | Raise e => Raise e
          | Ok known_normalized =>
              if String.eqb normalized_entity known_normalized
              then get known "uin" PNone
              else
                let entity_parts := PyStr.split normalized_entity in
                let known_parts := PyStr.split known_normalized in
                match parts_loop known known_parts entity_parts with
                | Raise e => Raise e
                | Ok (Returned v) => Ok v
                | Ok Fallthrough => known_loop normalized_entity rest
                end
          end
      end
  end.

(** [find_matching_uin(entity_text, known_names)] *)
Definition find_matching_uin (entity_text : string) (known_names : pyval)
  : result pyval :=
  let normalized_entity := normalize_name entity_text in
  items <- iter known_names ;;
  known_loop normalized_entity items.

(** A spaCy [Span] as the script reads it, and the [Doc] holding them. *)
Record Span : Type := mkSpan {
  text : string;
  start_char : Z;
  end_char : Z;
  label_ : string
}.

Record Doc : Type := mkDoc { ents : list Span }.

(** The dict appended to [entities] at lines 78-84. *)
Definition entity_dict (ent : Span) (uin : pyval) : pyval :=
  PDict [ ("text", PStr (text ent));
          ("start", PInt (start_char ent));
          ("end", PInt (end_char ent));
          ("label", PStr "PERSON");
          ("uin", uin) ].

(** Lines 75-84: [for ent in doc.ents:], [entities] being the list built
    so far. *)
Fixpoint ents_loop (known_names : pyval) (spans : list Span)
    (entities : list pyval) : result (list pyval) :=
  match spans with
  | [] => Ok entities
  | ent :: rest =>
      if String.eqb (label_ ent) "PERSON"
      then match find_matching_uin (text ent) known_names with
           | Raise e => Raise e
           | Ok uin => ents_loop known_names rest (entities ++ [entity_dict ent uin])
           end
      else ents_loop known_names rest entities
  end.

Section Script.

(** The loaded pipeline: [nlp(text)] returns a document or raises. *)
Variable nlp : pyval -> result Doc.

(** [json.loads] *)
Variable json_loads : string -> result pyval.

(** [extract_person_entities(text, known_names)] *)
Definition extract_person_entities (text : pyval) (known_names : pyval)
  : result (list pyval) :=
  doc <- nlp text ;;
  ents_loop known_names (ents doc) [].

(** What a run leaves behind: the documents printed with
    [print(json.dumps(...))], in order, and the exit status. *)
Record outcome : Type := mkOutcome {
  stdout : list pyval;
  exit_status : Z
}.

Definition error_object (msg : string) : pyval := PDict [("error", PStr msg)].

(** The [try] block of [main]. *)
Definition main_try (stdin : string) : result pyval :=
  input_data <- json_loads stdin ;;
  text <- get input_data "text" (PStr EmptyString) ;;
  known_names <- get input_data "known_names" (PList []) ;;
  entities <- extract_person_entities text known_names ;;
  Ok (PDict [("entities", PList entities)]).

(** [main()] with its two handlers. *)
Definition main (stdin : string) : outcome :=
  match main_try stdin with
  | Ok result => mkOutcome [result] 0
  | Raise (JSONDecodeError msg) =>
      mkOutcome [error_object ("Invalid JSON input: " ++ msg)] 1
  | Raise e =>
      mkOutcome [error_object ("Processing error: " ++ str_of_exn e)] 1
  end.

End Script.

(** The state of the spaCy installation the script finds at start-up. *)
Inductive spacy_env : Type :=
| NotInstalled
| ModelNotFound
| Loaded (nlp : pyval -> result Doc).

(** The whole script: the module-level start-up (lines 24-39), then
    [main()]. *)
Definition script (json_loads : string -> result pyval) (env : spacy_env)
    (stdin : string) : outcome :=
  match env with
  | NotInstalled =>
      mkOutcome [error_object "spaCy not installed. Run: pip install spacy && python -m spacy download en_core_web_sm"] 1
  | ModelNotFound =>
      mkOutcome [error_object "spaCy model not found. Run: python -m spacy download en_core_web_sm"] 1
  | Loaded nlp => main nlp json_loads stdin
  end.

End NerExtract.

(** ** [sanitize_pdf.py] *)

Module SanitizePdf.

(** A PDF document as pypdf shows it to the script: its pages, the
    document information dictionary ([reader.metadata], [None] when the
    file has none) and the [/Metadata] entry of the catalog (the XMP
    packet), if any. *)
Record pdf : Type := mkPdf {
  pages : list string;
  metadata : option (list (string * pyval));
  xmp : option string
}.

(** A file on disk: a PDF, or something pypdf rejects with [why]. *)
Inductive file : Type :=
| PdfFile (d : pdf)
| NotPdf (why : string).

(** The files on disk, by path. *)
Definition filesystem : Type := string -> option file.

Definition write_file (fs : filesystem) (path : string) (f : file) : filesystem :=
  fun p => if String.eqb p path then Some f else fs p.

(** [PdfReader(path)] *)
Definition PdfReader (fs : filesystem) (path : string) : result pdf :=
  match fs path with
  | None => Raise (FileNotFoundError path)
  | Some (NotPdf why) => Raise (OtherException why)
  | Some (PdfFile d) => Ok d
  end.

(** A [PdfWriter]: the pages added so far, its information dictionary and
    the [/Metadata] entry of its root object. *)
Record writer : Type := mkWriter {
  w_pages : list string;
  w_info : list (string * pyval);
  w_root_metadata : option string
}.

(** [PdfWriter()] *)
Definition PdfWriter : writer := mkWriter [] [("/Producer", PStr "pypdf")] None.

(** [for page in reader.pages: writer.add_page(page)] *)
Definition add_pages (w : writer) (ps : list string) : writer :=
  fold_left (fun acc page => mkWriter (w_pages acc ++ [page]) (w_info acc) (w_root_metadata acc))
            ps w.

(** [d[key] = v] on the items of a dict. *)
Fixpoint set_item (items : list (string * pyval)) (key : string) (v : pyval)
  : list (string * pyval) :=
  match items with
  | [] => [(key, v)]
  | (k, x) :: rest =>
      if String.eqb key k then (k, v) :: rest else (k, x) :: set_item rest key v
  end.

(** [writer.add_metadata(infos)] *)
Definition add_metadata (w : writer) (infos : list (string * pyval)) : writer :=
  mkWriter (w_pages w)
           (fold_left (fun acc kv => set_item acc (fst kv) (snd kv)) infos (w_info w))
           (w_root_metadata w).

(** [del writer._root_object['/Metadata']] when the key is there. *)
Definition del_root_metadata (w : writer) : writer :=
  mkWriter (w_pages w) (w_info w) None.

(** [with open(path, 'wb') as f: writer.write(f)] *)
Definition write (fs : filesystem) (path : string) (w : writer) : filesystem :=
  write_file fs path (PdfFile (mkPdf (w_pages w) (Some (w_info w)) (w_root_metadata w))).

Definition sanitized_metadata : list (string * pyval) :=
  [ ("/Producer", PStr "Safe Harbour POSH Platform");
    ("/Creator", PStr "Safe Harbour Report System");
    ("/Title", PStr "Confidential Report") ].

(** The dict [sanitize_pdf] returns. *)
Record report : Type := mkReport {
  status : string;
  input : string;
  output : string;
  stripped_fields : list string;
  original_author : pyval;
  original_creator : pyval
}.

Definition get_or (items : list (string * pyval)) (key : string) (default : pyval) : pyval :=
  match assoc key items with
  | Some v => v
  | None => default
  end.

(** Lines 50-66: the second pass, whose failures are swallowed. *)
Definition strip_xmp (fs : filesystem) (output_path : string) : filesystem :=
  match PdfReader fs output_path with
  | Raise _ => fs
  | Ok reader2 =>
      let writer2 := add_metadata (add_pages PdfWriter (pages reader2)) sanitized_metadata in
      let writer2 :=
        match w_root_metadata writer2 with
        | Some _ => del_root_metadata writer2
        | None => writer2
        end in
      write fs output_path writer2
  end.

(** [sanitize_pdf(input_path, output_path)]: the files after the call and
    the returned report, or the exception raised. *)
Definition sanitize_pdf (input_path output_path : string) (fs : filesystem)
  : filesystem * result report :=
  match PdfReader fs input_path with
  | Raise e => (fs, Raise e)
  | Ok reader =>
      let writer := add_pages PdfWriter (pages reader) in
      let original_metadata :=
        match metadata reader with
        | Some items => items
        | None => []
        end in
      let writer := add_metadata writer sanitized_metadata in
      let fs := write fs output_path writer in
      let fs := strip_xmp fs output_path in
      (fs, Ok (mkReport "success" input_path output_path
                 [ "/Author"; "/Creator"; "/Producer"; "/CreationDate";
                   "/ModDate"; "/Subject"; "/Keywords"; "/XMP" ]
                 (get_or original_metadata "/Author" (PStr "N/A"))
                 (get_or original_metadata "/Creator" (PStr "N/A"))))
  end.

(** A printed line; the two marks stand for the check-mark and cross-mark
    characters the script puts in front of its messages. *)
Inductive line : Type :=
| Plain (s : string)
| CheckMark (s : string)
| CrossMark (s : string).

Record outcome : Type := mkOutcome {
  stdout : list line;
  exit_status : Z;
  files : filesystem
}.

(** [sys.argv[i]]; the script only indexes below [len(sys.argv)]. *)
Definition argv_at (argv : list string) (i : nat) : string := nth i argv EmptyString.

(** [main()], [argv] being [sys.argv]. *)
Definition main (argv : list string) (fs : filesystem) : outcome :=
  if (length argv <? 3)%nat then
    mkOutcome [ Plain "Usage: python sanitize_pdf.py <input.pdf> <output.pdf>";
                Plain "       python sanitize_pdf.py <input.pdf>  (overwrites in place)" ]
              1 fs
  else
    let input_path := argv_at argv 1 in
    let output_path := if (3 <=? length argv)%nat then argv_at argv 2 else input_path in
    match sanitize_pdf input_path output_path fs with
    | (fs', Ok result) =>
        mkOutcome [ CheckMark "PDF sanitized successfully";
                    Plain ("   Input:  " ++ input result);
                    Plain ("   Output: " ++ output result);
                    Plain ("   Stripped: " ++ PyStr.join ", " (stripped_fields result)) ]
                  0 fs'
    | (fs', Raise (FileNotFoundError _)) =>
        mkOutcome [ CrossMark ("Error: File not found: " ++ input_path) ] 1 fs'
    | (fs', Raise e) =>
        mkOutcome [ CrossMark ("Error sanitizing PDF: " ++ str_of_exn e) ] 1 fs'
    end.

End SanitizePdf.

(* ================================================================== *)
(** * Part II: the vocabulary of the design document *)
(* ================================================================== *)

Module Spec.

(** A string that is empty or made of whitespace only. *)
Fixpoint blank (s : string) : bool :=
  match s with
  | EmptyString => true
  | String c r => PyStr.isspace c && blank r
  end.

(** A string with no whitespace character in it. *)
Fixpoint spaceless (s : string) : bool :=
  match s with
  | EmptyString => true
  | String c r => negb (PyStr.isspace c) && spaceless r
  end.

(** A token: not empty, no whitespace. *)
Definition token (t : string) : Prop :=
  t <> EmptyString /\ spaceless t = true.

(** The pieces between the whitespace characters of a string, one cut at
    every whitespace character: two adjacent whitespace characters have an
    empty piece between them. *)
Fixpoint pieces (s : string) : list string :=
  match s with
  | EmptyString => [EmptyString]
  | String c r =>
      if PyStr.isspace c then EmptyString :: pieces r
      else match pieces r with
           | p :: ps => String c p :: ps
           | [] => [String c EmptyString]
           end
  end.

Definition nonempty (s : string) : bool :=
  match s with
  | EmptyString => false
  | _ => true
  end.

(** Splitting on any run of whitespace: the pieces that are not empty. *)
Definition split_runs (s : string) : list string :=
  filter nonempty (pieces s).

(** The normalizer in the document's words: lower-case, split on any run
    of whitespace, rejoin with single spaces. *)
Definition normalize (name : string) : string :=
  PyStr.join " " (split_runs (PyStr.lower name)).

(** The display name of a roster entry: its ['name'] when it has one that
    is a string, the empty string otherwise. *)
Definition display_name (known : pyval) : string :=
  match known with
  | PDict items =>
      match assoc "name" items with
      | Some (PStr s) => s
      | _ => EmptyString
      end
  | _ => EmptyString
  end.

(** The UIN of a roster entry, [None] when the entry has none. *)
Definition uin (known : pyval) : pyval :=
  match known with
  | PDict items =>
      match assoc "uin" items with
      | Some v => v
      | None => PNone
      end
  | _ => PNone
  end.

(** A roster entry as the document types it: a dict whose ['name'], when
    present, is a string. *)
Definition known_identity (known : pyval) : bool :=
  match known with
  | PDict items =>
      match assoc "name" items with
      | None => true
      | Some (PStr _) => true
      | Some _ => false
      end
  | _ => false
  end.

(** The comparison key of a roster entry. *)
Definition known_key (known : pyval) : string :=
  NerExtract.normalize_name (display_name known).

(** The whitespace-separated tokens of a key. *)
Definition tokens (key : string) : list string := PyStr.split key.

Definition exact_match (key : string) (known : pyval) : Prop :=
  key = known_key known.

Definition partial_match (key : string) (known : pyval) : Prop :=
  exists t, In t (tokens key) /\ In t (tokens (known_key known)).

Definition matches (key : string) (known : pyval) : Prop :=
  exact_match key known \/ partial_match key known.

(** The two tests as the decision procedure a scan evaluates. *)
Definition matchesb (key : string) (known : pyval) : bool :=
  String.eqb key (known_key known)
  || existsb (PyStr.contains (tokens (known_key known))) (tokens key).

(** A span the extractor consumes. *)
Definition is_person (ent : NerExtract.Span) : bool :=
  String.eqb (NerExtract.label_ ent) "PERSON".

(** Scanning a key for its spacing: every whitespace character must be
    one space with a character that is not whitespace on either side;
    [after_space] tells that the scan is at the start or just behind a
    space. *)
Fixpoint spaced_from (after_space : bool) (s : string) : bool :=
  match s with
  | EmptyString => negb after_space
  | String c r =>
      if PyStr.isspace c
      then Ascii.eqb c " " && negb after_space && spaced_from true r
      else spaced_from false r
  end.

(** A string whose only whitespace is single spaces between tokens. *)
Definition single_spaced (s : string) : bool :=
  match s with
  | EmptyString => true
  | _ => spaced_from true s
  end.

(** Two names that share a token once lower-cased. *)
Definition shares_token (a b : string) : bool :=
  existsb (PyStr.contains (PyStr.split (PyStr.lower b)))
          (PyStr.split (PyStr.lower a)).

Definition is_dict (v : pyval) : bool :=
  match v with
  | PDict _ => true
  | _ => false
  end.

Definition is_list (v : pyval) : bool :=
  match v with
  | PList _ => true
  | _ => false
  end.

Definition is_str (v : pyval) : bool :=
  match v with
  | PStr _ => true
  | _ => false
  end.

(** Two roster entries that the matcher cannot tell apart: both
    well-typed, with the same key and the same UIN. *)
Definition same_identity (k1 k2 : pyval) : Prop :=
  known_identity k1 = true /\ known_identity k2 = true
  /\ known_key k1 = known_key k2 /\ uin k1 = uin k2.

(** A Mention: the output record of the extractor. *)
Definition mention (text : string) (start_ end_ : Z) (uin : pyval) : pyval :=
  PDict [ ("text", PStr text);
          ("start", PInt start_);
          ("end", PInt end_);
          ("label", PStr "PERSON");
          ("uin", uin) ].

(** [m] is the Mention of the span [ent] against [known_names]: the span's
    text and offsets, the label, and what the matcher returns for the
    span's text. *)
Definition mention_of (known_names : pyval) (ent : NerExtract.Span) (m : pyval)
  : Prop :=
  exists u,
    NerExtract.find_matching_uin (NerExtract.text ent) known_names = Ok u
    /\ m = mention (NerExtract.text ent) (NerExtract.start_char ent)
                   (NerExtract.end_char ent) u.

End Spec.

(** ** Rosters and spans used as concrete cases *)

Module Examples.

Definition identity (name uin : string) : pyval :=
  PDict [("name", PStr name); ("uin", PStr uin)].

Definition john_doe : pyval := identity "John Doe" "1".

(** An entry that shares the token [john] with [john_doe]. *)
Definition john_smith : pyval := identity "John Smith" "2".

(** The document's first-wins roster. *)
Definition smith_then_doe : list pyval :=
  [identity "John Smith" "1"; identity "John Doe" "2"].

(** An entry without a ['uin']. *)
Definition john_without_uin : pyval := PDict [("name", PStr "John Smith")].

(** An entry without a ['name']. *)
Definition nameless : pyval := PDict [("uin", PStr "7")].

(** The document's end-to-end case. *)
Definition jane_span : NerExtract.Span := NerExtract.mkSpan "Jane" 0 4 "PERSON".
Definition acme_span : NerExtract.Span := NerExtract.mkSpan "Acme" 10 14 "ORG".

(** A pipeline that finds the two spans whatever the text. *)
Definition jane_acme_nlp (text : pyval) : result NerExtract.Doc :=
  Ok (NerExtract.mkDoc [jane_span; acme_span]).

(** A decoder that rejects its input the way [json.loads] rejects the
    empty string. *)
Definition rejecting_loads (s : string) : result pyval :=
  Raise (JSONDecodeError "Expecting value: line 1 column 1 (char 0)").

(** A pipeline that finds Jane in ["Jane"], Acme in ["Acme"], and both in
    any other text. *)
Definition by_text_nlp (text : pyval) : result NerExtract.Doc :=
  match text with
  | PStr t =>
      if String.eqb t "Jane" then Ok (NerExtract.mkDoc [jane_span])
      else if String.eqb t "Acme" then Ok (NerExtract.mkDoc [acme_span])
      else Ok (NerExtract.mkDoc [jane_span; acme_span])
  | _ => Raise (OtherException "[E1041] Expected a string, Doc, or bytes as input")
  end.

(** A JSON string literal: the text between two double quotes. *)
Definition quoted (s : string) : string :=
  (String "034" s ++ String "034" EmptyString)%string.

(** The request body with the text Jane and the roster Jane / 42. *)
Definition jane_request : string :=
  ("{" ++ quoted "text" ++ ": " ++ quoted "Jane" ++ ", "
   ++ quoted "known_names" ++ ": [{" ++ quoted "name" ++ ": " ++ quoted "Jane"
   ++ ", " ++ quoted "uin" ++ ": " ++ quoted "42" ++ "}]}")%string.

(** The request body with the text Acme and a number for a roster. *)
Definition acme_request : string :=
  ("{" ++ quoted "text" ++ ": " ++ quoted "Acme" ++ ", "
   ++ quoted "known_names" ++ ": 5}")%string.

(** The request body whose text is a number. *)
Definition number_request : string := ("{" ++ quoted "text" ++ ": 5}")%string.

(** A decoder that knows five request bodies and rejects the rest. *)
Definition sample_loads (s : string) : result pyval :=
  if String.eqb s "{}" then Ok (PDict [])
  else if String.eqb s "[]" then Ok (PList [])
  else if String.eqb s jane_request
  then Ok (PDict [("text", PStr "Jane");
                  ("known_names", PList [identity "Jane" "42"])])
  else if String.eqb s acme_request
  then Ok (PDict [("text", PStr "Acme"); ("known_names", PInt 5)])
  else if String.eqb s number_request
  then Ok (PDict [("text", PInt 5)])
  else Raise (JSONDecodeError "Expecting value: line 1 column 1 (char 0)").

(** A disk with one PDF, [report.pdf], that carries an author and an XMP
    packet. *)
Definition report_pdf : SanitizePdf.pdf :=
  SanitizePdf.mkPdf ["page 1"; "page 2"]
    (Some [("/Author", PStr "A. Complainant"); ("/Creator", PStr "Word");
           ("/CreationDate", PStr "D:20240101")])
    (Some "<x:xmpmeta/>").

Definition one_report_disk : SanitizePdf.filesystem :=
  fun p => if String.eqb p "report.pdf" then Some (SanitizePdf.PdfFile report_pdf)
           else None.

End Examples.

(* ================================================================== *)
(** * Part III: properties *)
(* ================================================================== *)

(** ** Strings *)

Section StringFacts.

Import PyStr Spec.

Lemma append_empty_r (s : string) : (s ++ EmptyString)%string = s.
Proof. induction s; simpl; congruence. Qed.

Lemma append_assoc (a b c : string) : ((a ++ b) ++ c = a ++ (b ++ c))%string.
Proof. induction a; simpl; congruence. Qed.

Lemma append_eq_empty (a b : string) :
  (a ++ b)%string = EmptyString -> a = EmptyString /\ b = EmptyString.
Proof. destruct a; simpl; [auto | discriminate]. Qed.

Lemma isspace_lower_char (c : ascii) : isspace (lower_char c) = isspace c.
Proof. destruct c as [[] [] [] [] [] [] [] []]; reflexivity. Qed.

Lemma lower_char_idem (c : ascii) : lower_char (lower_char c) = lower_char c.
Proof. destruct c as [[] [] [] [] [] [] [] []]; reflexivity. Qed.

Lemma lower_idem (s : string) : lower (lower s) = lower s.
Proof. induction s; simpl; [reflexivity | now rewrite lower_char_idem, IHs]. Qed.

Lemma lower_append (a b : string) : (lower (a ++ b) = lower a ++ lower b)%string.
Proof. induction a; simpl; congruence. Qed.

Lemma flush_lower (w : string) : flush (lower w) = map lower (flush w).
Proof. destruct w; reflexivity. Qed.

Lemma split_from_cons (w : string) (c : ascii) (r : string) :
  split_from w (String c r) =
  if isspace c then flush w ++ split_from EmptyString r
  else split_from (w ++ String c EmptyString) r.
Proof. reflexivity. Qed.

(** Lower-casing moves no word boundary. *)
Lemma split_from_lower (s : string) : forall w,
  split_from (lower w) (lower s) = map lower (split_from w s).
Proof.
  induction s as [|c r IH]; intros w; simpl.
  - apply flush_lower.
  - rewrite isspace_lower_char. destruct (isspace c).
    + rewrite map_app, <- flush_lower. f_equal. apply (IH EmptyString).
    + rewrite <- IH, lower_append. reflexivity.
Qed.

Lemma split_lower (s : string) : split (lower s) = map lower (split s).
Proof. apply (split_from_lower s EmptyString). Qed.

Lemma split_lstrip (s : string) : split (lstrip s) = split s.
Proof.
  unfold split. induction s as [|c r IH]; simpl; [reflexivity|].
  destruct (isspace c) eqn:E; [exact IH|].
  simpl. now rewrite E.
Qed.

Lemma split_from_rstrip (s : string) : forall w,
  split_from w (rstrip s) = split_from w s.
Proof.
  induction s as [|c r IH]; intros w; [reflexivity|].
  rewrite (split_from_cons w c r). simpl rstrip.
  destruct (rstrip r) as [|d r'] eqn:E.
  - destruct (isspace c) eqn:Ec.
    + rewrite <- IH. simpl. now rewrite app_nil_r.
    + rewrite <- IH. simpl. now rewrite Ec.
  - rewrite split_from_cons. now rewrite !IH.
Qed.

(** [strip()] before [split()] changes nothing. *)
Lemma split_strip (s : string) : split (strip s) = split s.
Proof. unfold strip, split. rewrite split_from_rstrip. apply split_lstrip. Qed.

Lemma spaceless_append (a b : string) :
  spaceless (a ++ b)%string = spaceless a && spaceless b.
Proof.
  induction a as [|c a IH]; simpl; [reflexivity|].
  now rewrite IH, andb_assoc.
Qed.

Lemma flush_token (w : string) : spaceless w = true -> Forall token (flush w).
Proof.
  intros H. destruct w; simpl; constructor; [|constructor].
  split; [discriminate | exact H].
Qed.

(** Every element [split] returns is a token. *)
Lemma split_from_tokens (s : string) : forall w,
  spaceless w = true -> Forall token (split_from w s).
Proof.
  induction s as [|c r IH]; intros w Hw; simpl.
  - now apply flush_token.
  - destruct (isspace c) eqn:E.
    + apply Forall_app. split; [now apply flush_token | now apply IH].
    + apply IH. rewrite spaceless_append, Hw. simpl. now rewrite E.
Qed.

Lemma split_tokens (s : string) : Forall token (split s).
Proof. now apply split_from_tokens. Qed.

(** Scanning through a stretch without whitespace only grows the word. *)
Lemma split_from_spaceless (t : string) : forall w rest,
  spaceless t = true ->
  split_from w (t ++ rest)%string = split_from (w ++ t)%string rest.
Proof.
  induction t as [|c t IH]; intros w rest H; simpl.
  - now rewrite append_empty_r.
  - simpl in H. apply andb_true_iff in H as [Hc Ht].
    apply negb_true_iff in Hc. rewrite Hc, IH by exact Ht.
    now rewrite append_assoc.
Qed.

Lemma flush_nonempty (t : string) : t <> EmptyString -> flush t = [t].
Proof. destruct t; [congruence | reflexivity]. Qed.

Lemma isspace_space : isspace " " = true.
Proof. reflexivity. Qed.

(** Splitting tokens joined by single spaces gives the tokens back. *)
Lemma split_join (ts : list string) :
  Forall token ts -> split (join " " ts) = ts.
Proof.
  unfold split. induction ts as [|t ts IH]; intros H; [reflexivity|].
  inversion H as [|? ? [Hne Hsp] Hts]; subst.
  destruct ts as [|t' ts'].
  - simpl. rewrite <- (append_empty_r t) at 1.
    rewrite split_from_spaceless by exact Hsp. simpl.
    now apply flush_nonempty.
  - change (join " " (t :: t' :: ts')) with (t ++ " " ++ join " " (t' :: ts'))%string.
    rewrite split_from_spaceless by exact Hsp.
    change (EmptyString ++ t)%string with t.
    change (" " ++ join " " (t' :: ts'))%string with (String " " (join " " (t' :: ts'))).
    rewrite split_from_cons, isspace_space, IH by exact Hts.
    now rewrite flush_nonempty.
Qed.

Lemma lower_join (ts : list string) :
  lower (join " " ts) = join " " (map lower ts).
Proof.
  induction ts as [|t ts IH]; [reflexivity|].
  destruct ts as [|t' ts']; [reflexivity|].
  change (join " " (t :: t' :: ts')) with (t ++ " " ++ join " " (t' :: ts'))%string.
  rewrite !lower_append, IH. reflexivity.
Qed.

Lemma split_from_nil (s : string) : forall w,
  split_from w s = [] <-> w = EmptyString /\ blank s = true.
Proof.
  induction s as [|c r IH]; intros w; simpl.
  - destruct w; simpl; split; intros H; try discriminate; auto.
    destruct H; discriminate.
  - destruct (isspace c) eqn:E; simpl.
    + split.
      * intros H. apply app_eq_nil in H as [Hw Hr].
        apply IH in Hr as [_ Hr]. destruct w; [auto | discriminate].
      * intros [-> Hr]. simpl. apply IH. auto.
    + split.
      * intros H. apply IH in H as [H _].
        apply append_eq_empty in H as [_ H]. discriminate.
      * intros [_ H]. discriminate.
Qed.

Lemma split_nil (s : string) : split s = [] <-> blank s = true.
Proof.
  unfold split. rewrite split_from_nil. intuition.
Qed.

Lemma blank_lower (s : string) : blank (lower s) = blank s.
Proof.
  induction s as [|c r IH]; simpl; [reflexivity|].
  now rewrite isspace_lower_char, IH.
Qed.

Lemma join_empty (ts : list string) :
  Forall token ts -> join " " ts = EmptyString -> ts = [].
Proof.
  intros H E. destruct ts as [|t ts]; [reflexivity|].
  inversion H as [|? ? [Hne _] _]; subst.
  destruct ts; simpl in E; [congruence|].
  apply append_eq_empty in E as [E _]. congruence.
Qed.

End StringFacts.

(** ** The normalizer *)

Section NormalizerFacts.

Import PyStr Spec NerExtract.

Lemma pieces_cons (s : string) : exists p ps, pieces s = p :: ps.
Proof.
  destruct s as [|c r]; simpl; [now eexists; eexists|].
  destruct (isspace c); [now eexists; eexists|].
  destruct (pieces r); now eexists; eexists.
Qed.

Lemma flush_filter (w : string) : flush w = filter nonempty [w].
Proof. destruct w; reflexivity. Qed.

(** The scanning loop computes the non-empty pieces, the word read so far
    being glued to the first piece. *)
Lemma split_from_pieces (s : string) : forall w,
  split_from w s =
  filter nonempty (match pieces s with
                   | p :: ps => (w ++ p)%string :: ps
                   | [] => [w]
                   end).
Proof.
  induction s as [|c r IH]; intros w.
  - cbn [pieces]. rewrite append_empty_r. apply flush_filter.
  - rewrite split_from_cons. cbn [pieces].
    destruct (pieces_cons r) as (p & ps & E).
    rewrite E. destruct (isspace c); cbv iota.
    + rewrite append_empty_r, IH, E, flush_filter.
      change (EmptyString ++ p)%string with p.
      now rewrite <- filter_app.
    + rewrite IH, E, append_assoc. reflexivity.
Qed.

Lemma split_split_runs (s : string) : split s = split_runs s.
Proof.
  unfold split, split_runs. rewrite split_from_pieces.
  destruct (pieces_cons s) as (p & ps & E). now rewrite E.
Qed.

(** The key is the lower-cased tokens of the name, joined by single
    spaces. *)
Lemma normalize_name_tokens (s : string) :
  normalize_name s = join " " (split (lower s)).
Proof. unfold normalize_name. now rewrite split_strip. Qed.

Lemma lower_split_lower (s : string) :
  map lower (split (lower s)) = split (lower s).
Proof.
  rewrite split_lower, map_map.
  apply map_ext. intros t. apply lower_idem.
Qed.

(** The tokens of a key are the tokens of the lower-cased name. *)
Lemma split_normalize_name (s : string) :
  split (normalize_name s) = split (lower s).
Proof. rewrite normalize_name_tokens. apply split_join, split_tokens. Qed.

Lemma normalize_name_blank (s : string) :
  normalize_name s = EmptyString <-> blank s = true.
Proof.
  rewrite normalize_name_tokens. split.
  - intros E. apply join_empty in E; [|apply split_tokens].
    apply split_nil in E. now rewrite blank_lower in E.
  - intros B. rewrite <- blank_lower in B. apply split_nil in B.
    now rewrite B.
Qed.

(** C4. Normalization is idempotent: normalizing a normalized name gives
    the same key, for every string. *)
Theorem normalize_name_idempotent (s : string) :
  normalize_name (normalize_name s) = normalize_name s.
Proof.
  rewrite (normalize_name_tokens (normalize_name s)).
  rewrite (normalize_name_tokens s) at 1.
  rewrite lower_join, lower_split_lower.
  rewrite split_join by apply split_tokens.
  symmetry. apply normalize_name_tokens.
Qed.

(** C5. For every string the normalizer returns what the document
    describes: the string lower-cased, split on any run of whitespace and
    rejoined with single spaces ([Spec.normalize]); on the empty string and
    on every whitespace-only string the result is the empty string.  The
    function is total, so it has no error case. *)
Theorem normalize_name_refines_spec (s : string) :
  normalize_name s = Spec.normalize s
  /\ normalize_name EmptyString = EmptyString
  /\ (blank s = true -> normalize_name s = EmptyString).
Proof.
  split; [|split].
  - rewrite normalize_name_tokens. unfold Spec.normalize.
    now rewrite split_split_runs.
  - reflexivity.
  - apply normalize_name_blank.
Qed.

Lemma normalize_name_refines_spec_witness :
  normalize_name "  John   Doe " = "john doe"
  /\ Spec.normalize "  John   Doe " = "john doe"
  /\ normalize_name (String "009" (String "010" " ")) = EmptyString.
Proof.
  destruct (normalize_name_refines_spec (String "009" (String "010" " ")))
    as (_ & _ & H).
  split; [reflexivity | split; [reflexivity | apply H; reflexivity]].
Defined.

End NormalizerFacts.

(** ** The matcher *)

Section MatcherFacts.

Import PyStr Spec NerExtract.

(** Case and spacing do not reach the key. *)
Example normalize_name_john_doe :
  normalize_name "  John   Doe " = normalize_name "john doe".
Proof. reflexivity. Qed.

(** Why the roster has to be well-typed: a ['name'] that is [null] in the
    request makes the scan raise at that entry. *)
Example find_matching_uin_null_name :
  find_matching_uin "Bob" (PList [PDict [("name", PNone); ("uin", PStr "1")]])
  = Raise (AttributeError "'NoneType' object has no attribute 'lower'").
Proof. reflexivity. Qed.

Lemma contains_In (parts : list string) (x : string) :
  contains parts x = true <-> In x parts.
Proof.
  unfold contains. rewrite existsb_exists. split.
  - intros (y & Hy & E). apply String.eqb_eq in E. now subst.
  - intros H. exists x. split; [exact H | apply String.eqb_refl].
Qed.

Lemma matchesb_matches (key : string) (known : pyval) :
  matchesb key known = true <-> matches key known.
Proof.
  unfold matchesb, matches, exact_match, partial_match.
  rewrite orb_true_iff, String.eqb_eq, existsb_exists.
  split; (intros [H | (t & H1 & H2)]; [now left | right; exists t]);
    split; try exact H1; now apply contains_In.
Qed.

Lemma matchesb_not_matches (key : string) (known : pyval) :
  matchesb key known = false <-> ~ matches key known.
Proof.
  rewrite <- matchesb_matches. destruct (matchesb key known); split;
    congruence.
Qed.

(** The inner loop on a dict returns the entry's UIN exactly when a token
    of the detected name is among the entry's tokens. *)
Lemma parts_loop_dict (items : list (string * pyval))
    (known_parts entity_parts : list string) :
  parts_loop (PDict items) known_parts entity_parts =
  Ok (if existsb (contains known_parts) entity_parts
      then Returned (uin (PDict items))
      else Fallthrough).
Proof.
  induction entity_parts as [|p ps IH]; simpl; [reflexivity|].
  destruct (contains known_parts p); simpl; [reflexivity | exact IH].
Qed.

(** One iteration of the scan on a well-typed entry. *)
Lemma known_loop_cons (key : string) (known : pyval) (rest : list pyval) :
  known_identity known = true ->
  known_loop key (known :: rest) =
  if matchesb key known then Ok (uin known) else known_loop key rest.
Proof.
  destruct known as [| | | | |?|items]; try discriminate.
  unfold matchesb, known_key, tokens. simpl.
  destruct (assoc "name" items) as [[| | | |s| |]|]; try discriminate;
    intros _; simpl;
    (match goal with
     | |- context [String.eqb key ?k] => destruct (String.eqb key k)
     end; simpl; [reflexivity|]);
    rewrite parts_loop_dict;
    match goal with
    | |- context [existsb ?f ?l] => destruct (existsb f l)
    end; reflexivity.
Qed.

(** The scan stops at the first entry that matches. *)
Lemma known_loop_first (key : string) (known : pyval) (post : list pyval) :
  forall pre,
  forallb known_identity pre = true ->
  Forall (fun k => ~ matches key k) pre ->
  known_identity known = true ->
  matches key known ->
  known_loop key (pre ++ known :: post) = Ok (uin known).
Proof.
  induction pre as [|k pre IH]; intros Hty Hno Hk Hm.
  - simpl app. rewrite known_loop_cons by exact Hk.
    apply matchesb_matches in Hm. now rewrite Hm.
  - simpl in Hty. apply andb_true_iff in Hty as [Hk0 Hty].
    inversion Hno as [|? ? Hn Hno']; subst.
    simpl app. rewrite known_loop_cons by exact Hk0.
    apply matchesb_not_matches in Hn. rewrite Hn. now apply IH.
Qed.

(** The scan of a roster in which nothing matches ends with [None]. *)
Lemma known_loop_none (key : string) (roster : list pyval) :
  forallb known_identity roster = true ->
  Forall (fun k => ~ matches key k) roster ->
  known_loop key roster = Ok PNone.
Proof.
  induction roster as [|k roster IH]; intros Hty Hno; [reflexivity|].
  simpl in Hty. apply andb_true_iff in Hty as [Hk Hty].
  inversion Hno as [|? ? Hn Hno']; subst.
  rewrite known_loop_cons by exact Hk.
  apply matchesb_not_matches in Hn. rewrite Hn. now apply IH.
Qed.

(** On a well-typed roster the scan always returns. *)
Lemma known_loop_total (key : string) (roster : list pyval) :
  forallb known_identity roster = true ->
  exists v, known_loop key roster = Ok v.
Proof.
  induction roster as [|k roster IH]; intros Hty; [now exists PNone|].
  simpl in Hty. apply andb_true_iff in Hty as [Hk Hty].
  rewrite known_loop_cons by exact Hk.
  destruct (matchesb key k); [now eexists | now apply IH].
Qed.

Lemma find_matching_uin_list (entity_text : string) (roster : list pyval) :
  find_matching_uin entity_text (PList roster) =
  known_loop (normalize_name entity_text) roster.
Proof. reflexivity. Qed.

(** C1. On every roster the matcher returns the UIN of the first entry, in
    roster order, that matches the detected name exactly (equal keys) or
    partially (a token of the detected key is among the tokens of the
    entry's key); when no entry matches, and so on the empty roster, it
    returns [None]. *)
Theorem find_matching_uin_first_match (entity_text : string)
    (roster : list pyval) :
  forallb known_identity roster = true ->
  (forall pre known post,
      roster = pre ++ known :: post ->
      Forall (fun k => ~ matches (normalize_name entity_text) k) pre ->
      matches (normalize_name entity_text) known ->
      find_matching_uin entity_text (PList roster) = Ok (uin known))
  /\ (Forall (fun k => ~ matches (normalize_name entity_text) k) roster ->
      find_matching_uin entity_text (PList roster) = Ok PNone)
  /\ find_matching_uin entity_text (PList []) = Ok PNone.
Proof.
  intros Hty. split; [|split].
  - intros pre known post -> Hno Hm.
    rewrite forallb_app in Hty. apply andb_true_iff in Hty as [Hpre Hrest].
    simpl in Hrest. apply andb_true_iff in Hrest as [Hk _].
    rewrite find_matching_uin_list. now apply known_loop_first.
  - intros Hno. rewrite find_matching_uin_list. now apply known_loop_none.
  - reflexivity.
Qed.

Lemma find_matching_uin_first_match_witness :
  find_matching_uin "John" (PList Examples.smith_then_doe) = Ok (PStr "1")
  /\ find_matching_uin "Bob" (PList [Examples.identity "Alice" "1"]) = Ok PNone.
Proof.
  split.
  - apply (proj1 (find_matching_uin_first_match "John" Examples.smith_then_doe
                    eq_refl)
             [] (Examples.identity "John Smith" "1")
             [Examples.identity "John Doe" "2"] eq_refl).
    + constructor.
    + apply matchesb_matches. reflexivity.
  - apply (proj1 (proj2 (find_matching_uin_first_match "Bob"
                           [Examples.identity "Alice" "1"] eq_refl))).
    constructor; [|constructor]. apply matchesb_not_matches. reflexivity.
Defined.

(** The tokens of the key [john doe]. *)
Lemma tokens_john_doe : tokens "john doe" = ["john"; "doe"].
Proof. reflexivity. Qed.

(** C2, as stated, fails: an earlier entry sharing the token [john] wins
    over the exact entry behind it. *)
Lemma john_doe_shadowed :
  In Examples.john_doe [Examples.john_smith; Examples.john_doe]
  /\ normalize_name "John Doe" = "john doe"
  /\ find_matching_uin "John Doe"
       (PList [Examples.john_smith; Examples.john_doe]) = Ok (PStr "2")
  /\ find_matching_uin "John Doe"
       (PList [Examples.john_smith; Examples.john_doe]) <> Ok (PStr "1").
Proof.
  split; [right; left; reflexivity|].
  split; [reflexivity|].
  split; [reflexivity | discriminate].
Qed.

(** C2, amended. When the roster holds the entry [John Doe / 1] and every
    entry before it is well-typed and has neither the token [john] nor the
    token [doe] in its key (so none of them matches, exactly or
    partially), the matcher returns ["1"] for every detected name whose
    key is [john doe]. *)
Theorem find_matching_uin_john_doe (entity_text : string)
    (pre post : list pyval) :
  normalize_name entity_text = "john doe" ->
  forallb known_identity pre = true ->
  Forall (fun k => ~ In "john" (tokens (known_key k))
                   /\ ~ In "doe" (tokens (known_key k))) pre ->
  find_matching_uin entity_text (PList (pre ++ Examples.john_doe :: post))
  = Ok (PStr "1").
Proof.
  intros Hkey Hty Hno. rewrite find_matching_uin_list, Hkey.
  change (PStr "1") with (uin Examples.john_doe).
  apply known_loop_first; [exact Hty | | reflexivity | now left].
  eapply Forall_impl; [|exact Hno].
  intros k [Hj Hd] [He | (t & Ht & Hk)].
  - unfold exact_match in He. rewrite <- He in Hj. apply Hj. now left.
  - rewrite tokens_john_doe in Ht.
    destruct Ht as [<- | [<- | []]]; auto.
Qed.

Lemma find_matching_uin_john_doe_witness :
  find_matching_uin "  JOHN   doe "
    (PList ([Examples.identity "Alice" "3"] ++ Examples.john_doe
              :: [Examples.john_smith])) = Ok (PStr "1").
Proof.
  apply (find_matching_uin_john_doe "  JOHN   doe "
           [Examples.identity "Alice" "3"] [Examples.john_smith]).
  - reflexivity.
  - reflexivity.
  - constructor; [|constructor].
    split; (intros H; apply contains_In in H; discriminate H).
Defined.

End MatcherFacts.

(** ** Entries without a name, entries without a UIN, provenance *)

Section EntryFacts.

Import PyStr Spec NerExtract.

Lemma tokens_normalize_nil (e : string) :
  tokens (normalize_name e) = [] <-> blank e = true.
Proof.
  unfold tokens. rewrite split_normalize_name, split_nil, blank_lower.
  reflexivity.
Qed.

(** The key of an entry with a missing or empty name is empty, and such an
    entry matches exactly the detected names with an empty key. *)
Lemma nameless_matchesb (items : list (string * pyval)) (key : string) :
  assoc "name" items = None \/ assoc "name" items = Some (PStr EmptyString) ->
  known_key (PDict items) = EmptyString
  /\ matchesb key (PDict items) = String.eqb key EmptyString.
Proof.
  intros H.
  assert (K : known_key (PDict items) = EmptyString).
  { unfold known_key, display_name. destruct H as [-> | ->]; reflexivity. }
  split; [exact K|].
  unfold matchesb. rewrite K.
  replace (existsb (contains (tokens EmptyString)) (tokens key)) with false.
  - apply orb_false_r.
  - symmetry. induction (tokens key); simpl; auto.
Qed.

(** C6. A roster entry whose display name is missing or empty has the
    empty key; it matches a detected name, exactly or partially, only when
    that name is empty or whitespace-only; for a detected name with at
    least one token the entry is passed over, the scan going on with the
    rest of the roster; for an empty or whitespace-only detected name the
    entry's UIN is returned.  No case raises. *)
Theorem nameless_entry_matches_only_blank (items : list (string * pyval)) :
  assoc "name" items = None \/ assoc "name" items = Some (PStr EmptyString) ->
  known_key (PDict items) = EmptyString
  /\ (forall e, matches (normalize_name e) (PDict items) <-> blank e = true)
  /\ (forall e rest,
        tokens (normalize_name e) <> [] ->
        ~ matches (normalize_name e) (PDict items)
        /\ find_matching_uin e (PList (PDict items :: rest))
           = find_matching_uin e (PList rest))
  /\ (forall e rest,
        blank e = true ->
        find_matching_uin e (PList (PDict items :: rest))
        = Ok (uin (PDict items))).
Proof.
  intros H.
  assert (Hty : known_identity (PDict items) = true).
  { unfold known_identity. destruct H as [-> | ->]; reflexivity. }
  assert (M : forall e, matchesb (normalize_name e) (PDict items) = true
                        <-> blank e = true).
  { intros e. destruct (nameless_matchesb items (normalize_name e) H) as [_ ->].
    rewrite String.eqb_eq. apply normalize_name_blank. }
  split; [apply (nameless_matchesb items EmptyString H)|].
  split; [intros e; rewrite <- matchesb_matches; apply M|].
  split.
  - intros e rest Htok.
    assert (F : matchesb (normalize_name e) (PDict items) = false).
    { destruct (matchesb (normalize_name e) (PDict items)) eqn:E; [|reflexivity].
      exfalso. apply Htok. apply tokens_normalize_nil. now apply M. }
    split; [now apply matchesb_not_matches|].
    rewrite !find_matching_uin_list, known_loop_cons by exact Hty.
    now rewrite F.
  - intros e rest Hb.
    rewrite find_matching_uin_list, known_loop_cons by exact Hty.
    apply M in Hb. now rewrite Hb.
Qed.

Lemma nameless_entry_matches_only_blank_witness :
  find_matching_uin "Bob" (PList [Examples.nameless; Examples.identity "Bob" "9"])
  = Ok (PStr "9")
  /\ find_matching_uin "   " (PList [Examples.nameless; Examples.identity "Bob" "9"])
     = Ok (PStr "7").
Proof.
  destruct (nameless_entry_matches_only_blank [("uin", PStr "7")]
              (or_introl eq_refl)) as (_ & _ & Hskip & Hblank).
  unfold Examples.nameless. split.
  - destruct (Hskip "Bob" [Examples.identity "Bob" "9"]) as [_ ->].
    + discriminate.
    + reflexivity.
  - apply (Hblank "   " [Examples.identity "Bob" "9"]). reflexivity.
Defined.

(** C10. When the first entry that matches, exactly or partially, has no
    ['uin'], the matcher returns [None], the very result of a scan that
    finds no match, and nothing behind that entry is looked at: the rest of
    the roster is arbitrary here, a later matching entry with a UIN
    included. *)
Theorem find_matching_uin_missing_uin (entity_text : string)
    (pre : list pyval) (items : list (string * pyval)) (post : list pyval) :
  forallb known_identity pre = true ->
  Forall (fun k => ~ matches (normalize_name entity_text) k) pre ->
  known_identity (PDict items) = true ->
  matches (normalize_name entity_text) (PDict items) ->
  assoc "uin" items = None ->
  find_matching_uin entity_text (PList (pre ++ PDict items :: post)) = Ok PNone
  /\ find_matching_uin entity_text (PList (pre ++ PDict items :: post))
     = find_matching_uin entity_text (PList pre).
Proof.
  intros Hty Hno Hk Hm Hu.
  rewrite !find_matching_uin_list.
  rewrite known_loop_first by assumption.
  rewrite known_loop_none by assumption.
  unfold uin. now rewrite Hu.
Qed.

Lemma find_matching_uin_missing_uin_witness :
  find_matching_uin "John"
    (PList ([Examples.identity "Alice" "3"] ++ Examples.john_without_uin
              :: [Examples.john_doe])) = Ok PNone
  /\ find_matching_uin "John" (PList [Examples.john_doe]) = Ok (PStr "1").
Proof.
  split; [|reflexivity].
  apply (find_matching_uin_missing_uin "John" [Examples.identity "Alice" "3"]
           [("name", PStr "John Smith")] [Examples.john_doe]).
  - reflexivity.
  - constructor; [|constructor]. apply matchesb_not_matches. reflexivity.
  - reflexivity.
  - apply matchesb_matches. reflexivity.
  - reflexivity.
Defined.

(** A [return] of the inner loop hands back the entry's ['uin']. *)
Lemma parts_loop_returned (known : pyval) (known_parts entity_parts : list string)
    (v : pyval) :
  parts_loop known known_parts entity_parts = Ok (Returned v) ->
  get known "uin" PNone = Ok v.
Proof.
  induction entity_parts as [|p ps IH]; simpl; [discriminate|].
  destruct (contains known_parts p); [|exact IH].
  destruct (get known "uin" PNone); congruence.
Qed.

Lemma get_uin_some (known v : pyval) :
  get known "uin" PNone = Ok v -> v <> PNone ->
  exists items, known = PDict items /\ assoc "uin" items = Some v.
Proof.
  destruct known; try discriminate. simpl. intros E Hv.
  exists items. split; [reflexivity|].
  destruct (assoc "uin" items); congruence.
Qed.

(** Whatever the scan returns, other than [None], is the ['uin'] of one of
    the scanned entries. *)
Lemma known_loop_provenance (key : string) (known_names : list pyval) (v : pyval) :
  known_loop key known_names = Ok v -> v <> PNone ->
  exists items, In (PDict items) known_names /\ assoc "uin" items = Some v.
Proof.
  induction known_names as [|known rest IH]; simpl; intros E Hv.
  - congruence.
  - assert (Here : get known "uin" PNone = Ok v ->
                   exists items, In (PDict items) (known :: rest)
                                 /\ assoc "uin" items = Some v).
    { intros G. destruct (get_uin_some known v G Hv) as (items & -> & A).
      exists items. split; [now left | exact A]. }
    destruct (get known "name" (PStr EmptyString)) as [name|]; [|discriminate].
    destruct (call_normalize_name name) as [kn|]; [|discriminate].
    destruct (String.eqb key kn); [now apply Here|].
    destruct (parts_loop known (split kn) (split key)) as [[u|]|] eqn:P;
      [| |discriminate].
    + apply parts_loop_returned in P. apply Here. congruence.
    + destruct (IH E Hv) as (items & Hin & A).
      exists items. split; [now right | exact A].
Qed.

Lemma chars_no_dict (s : string) (items : list (string * pyval)) :
  ~ In (PDict items) (chars s).
Proof.
  induction s as [|c r IH]; simpl; [tauto|]. intros [H | H]; [discriminate | auto].
Qed.

Lemma keys_no_dict (kvs items : list (string * pyval)) :
  ~ In (PDict items) (map (fun kv => PStr (fst kv)) kvs).
Proof.
  induction kvs as [|kv kvs IH]; simpl; [tauto|].
  intros [H | H]; [discriminate | auto].
Qed.

Lemma find_matching_uin_provenance (entity_text : string) (known_names v : pyval) :
  find_matching_uin entity_text known_names = Ok v -> v <> PNone ->
  exists roster items,
    known_names = PList roster
    /\ In (PDict items) roster
    /\ assoc "uin" items = Some v.
Proof.
  unfold find_matching_uin. intros E Hv.
  destruct known_names as [| | | |s|roster|kvs]; try discriminate; simpl in E;
    apply known_loop_provenance in E; try exact Hv;
    destruct E as (items & Hin & A).
  - now apply chars_no_dict in Hin.
  - now exists roster, items.
  - now apply keys_no_dict in Hin.
Qed.

End EntryFacts.

(** ** The extractor *)

Section ExtractorFacts.

Import PyStr Spec NerExtract.

Variable nlp : pyval -> result Doc.

(** On a well-typed roster the loop appends one Mention per PERSON span,
    in span order, to the list built so far. *)
Lemma ents_loop_typed (roster : list pyval) (spans : list Span) :
  forallb known_identity roster = true ->
  forall acc, exists ms,
    ents_loop (PList roster) spans acc = Ok (acc ++ ms)
    /\ Forall2 (mention_of (PList roster)) (filter is_person spans) ms.
Proof.
  intros Hty. induction spans as [|ent rest IH]; intros acc.
  - exists []. simpl. rewrite app_nil_r. split; [reflexivity | constructor].
  - simpl. unfold is_person at 1.
    destruct (String.eqb (label_ ent) "PERSON").
    + destruct (known_loop_total (normalize_name (text ent)) roster Hty)
        as [u Hu].
      rewrite find_matching_uin_list, Hu.
      destruct (IH (acc ++ [entity_dict ent u])) as (ms & E & F).
      exists (entity_dict ent u :: ms). split.
      * rewrite E, <- app_assoc. reflexivity.
      * constructor; [|exact F]. exists u. split; [exact Hu | reflexivity].
    + apply IH.
Qed.

(** Spans with another label leave the list as it is. *)
Lemma ents_loop_no_person (known_names : pyval) (spans : list Span) :
  filter is_person spans = [] ->
  forall acc, ents_loop known_names spans acc = Ok acc.
Proof.
  induction spans as [|ent rest IH]; intros H acc; [reflexivity|].
  simpl in *. unfold is_person in H at 1.
  destruct (String.eqb (label_ ent) "PERSON"); [discriminate | now apply IH].
Qed.

(** Every element of the result was either there before the loop or is
    the dict built for one of the spans. *)
Lemma ents_loop_elements (known_names : pyval) (spans : list Span) :
  forall acc ms,
  ents_loop known_names spans acc = Ok ms ->
  forall m, In m ms ->
  In m acc \/ exists ent u,
      In ent spans
      /\ find_matching_uin (text ent) known_names = Ok u
      /\ m = entity_dict ent u.
Proof.
  induction spans as [|ent rest IH]; simpl; intros acc ms E m Hm.
  - left. congruence.
  - destruct (String.eqb (label_ ent) "PERSON").
    + destruct (find_matching_uin (text ent) known_names) as [u|] eqn:Fu;
        [|discriminate].
      destruct (IH _ _ E m Hm) as [Hacc | (e' & u' & Hin & Hf & ->)].
      * apply in_app_or in Hacc as [Hacc | [<- | []]]; [now left|].
        right. exists ent, u. auto.
      * right. exists e', u'. auto.
    + destruct (IH _ _ E m Hm) as [Hacc | (e' & u' & Hin & Hf & ->)];
        [now left|].
      right. exists e', u'. auto.
Qed.

(** C3. Given the spans the recognizer found and a roster, the extractor
    returns one Mention per span labelled [PERSON], in span order, each
    with the span's text, start and end, the label [PERSON] and the
    matcher's result for the span's text against the whole roster; spans
    with another label give nothing, and with no [PERSON] span the result
    is the empty list. *)
Theorem extract_person_entities_mentions (text : pyval) (doc : Doc)
    (roster : list pyval) :
  nlp text = Ok doc ->
  forallb known_identity roster = true ->
  (exists ms,
      extract_person_entities nlp text (PList roster) = Ok ms
      /\ Forall2 (mention_of (PList roster)) (filter is_person (ents doc)) ms)
  /\ (filter is_person (ents doc) = [] ->
      extract_person_entities nlp text (PList roster) = Ok []).
Proof.
  intros Hdoc Hty. unfold extract_person_entities. rewrite Hdoc. simpl.
  split.
  - destruct (ents_loop_typed roster (ents doc) Hty []) as (ms & E & F).
    exists ms. split; assumption.
  - intros H. now apply ents_loop_no_person.
Qed.

(** C9. A value other than [None] returned by the matcher is the ['uin']
    of an entry of the roster it was given; so every ['uin'] other than
    [None] in the Mentions the extractor returns is the ['uin'] of an entry
    of the roster of the request. *)
Theorem uin_provenance (entity_text : string) (text : pyval)
    (known_names : pyval) :
  (forall v,
      find_matching_uin entity_text known_names = Ok v -> v <> PNone ->
      exists roster items,
        known_names = PList roster
        /\ In (PDict items) roster
        /\ assoc "uin" items = Some v)
  /\ (forall ms m v,
        extract_person_entities nlp text known_names = Ok ms ->
        In m ms ->
        get m "uin" PNone = Ok v -> v <> PNone ->
        exists roster items,
          known_names = PList roster
          /\ In (PDict items) roster
          /\ assoc "uin" items = Some v).
Proof.
  split.
  - intros v. apply find_matching_uin_provenance.
  - intros ms m v E Hm G Hv. unfold extract_person_entities in E.
    destruct (nlp text) as [doc|]; [|discriminate]. simpl in E.
    destruct (ents_loop_elements _ _ _ _ E m Hm)
      as [[] | (ent & u & _ & Hf & ->)].
    simpl in G. injection G as <-.
    now apply (find_matching_uin_provenance (NerExtract.text ent)).
Qed.

End ExtractorFacts.

Lemma extract_person_entities_mentions_witness :
  NerExtract.extract_person_entities Examples.jane_acme_nlp (Py.PStr "Jane at Acme")
    (Py.PList [Examples.identity "Jane" "42"])
  = Py.Ok [Spec.mention "Jane" 0 4 (Py.PStr "42")].
Proof.
  destruct (extract_person_entities_mentions Examples.jane_acme_nlp
              (Py.PStr "Jane at Acme")
              (NerExtract.mkDoc [Examples.jane_span; Examples.acme_span])
              [Examples.identity "Jane" "42"] eq_refl eq_refl)
    as [(ms & E & _) _].
  rewrite E. vm_compute in E. injection E as <-. reflexivity.
Defined.

Lemma uin_provenance_witness :
  exists roster items,
    Py.PList Examples.smith_then_doe = Py.PList roster
    /\ In (Py.PDict items) roster
    /\ Py.assoc "uin" items = Some (Py.PStr "1").
Proof.
  apply (proj1 (uin_provenance Examples.jane_acme_nlp "John" (Py.PStr "John")
                  (Py.PList Examples.smith_then_doe)) (Py.PStr "1")).
  - reflexivity.
  - discriminate.
Defined.

(** ** The script's error path *)

Section ScriptFacts.

Import NerExtract.

Variable json_loads : string -> result pyval.

(** C7. When the request body is not valid JSON ([json.loads] raises
    [JSONDecodeError]), the run prints one document, an error object with
    a single message, and ends with exit status 1; nothing else is
    printed, so no entities.  With the pipeline loaded the message is the
    decoder's, prefixed by [Invalid JSON input: ]. *)
Theorem malformed_input_reports_error (env : spacy_env) (stdin msg : string) :
  json_loads stdin = Raise (JSONDecodeError msg) ->
  (exists message,
      stdout (script json_loads env stdin) = [error_object message]
      /\ exit_status (script json_loads env stdin) = 1%Z)
  /\ (forall nlp,
        script json_loads (Loaded nlp) stdin
        = mkOutcome [error_object ("Invalid JSON input: " ++ msg)] 1).
Proof.
  intros H.
  assert (M : forall nlp, main nlp json_loads stdin
                = mkOutcome [error_object ("Invalid JSON input: " ++ msg)] 1).
  { intros nlp. unfold main, main_try. now rewrite H. }
  split; [|exact M].
  destruct env as [| |nlp]; simpl; [eexists; split; reflexivity ..|].
  rewrite M. eexists; split; reflexivity.
Qed.

End ScriptFacts.

Lemma malformed_input_reports_error_witness :
  NerExtract.script Examples.rejecting_loads
    (NerExtract.Loaded Examples.jane_acme_nlp) EmptyString
  = NerExtract.mkOutcome
      [NerExtract.error_object
         "Invalid JSON input: Expecting value: line 1 column 1 (char 0)"] 1.
Proof.
  apply (proj2 (malformed_input_reports_error Examples.rejecting_loads
                  (NerExtract.Loaded Examples.jane_acme_nlp) EmptyString
                  "Expecting value: line 1 column 1 (char 0)" eq_refl)
           Examples.jane_acme_nlp).
Defined.

(** ** The document sanitizer *)

Section SanitizerFacts.

Import SanitizePdf.




(** C8, what the code does. Called with an input path and no destination,
    [main] prints its two usage lines and exits with status 1; no file is
    read or written.  The in-place branch at line 88 is never reached. *)
Theorem sanitize_main_without_destination (script_name input_path : string)
    (fs : filesystem) :
  main [script_name; input_path] fs
  = mkOutcome
      [ Plain "Usage: python sanitize_pdf.py <input.pdf> <output.pdf>";
        Plain "       python sanitize_pdf.py <input.pdf>  (overwrites in place)" ]
      1 fs.
Proof. reflexivity. Qed.

End SanitizerFacts.

(* ================================================================== *)
(** * Part IV: further properties of the code *)
(* ================================================================== *)

(** ** The shape of a key *)

Section KeyFacts.

Import PyStr Spec NerExtract.

Lemma lower_normalize_name (s : string) :
  lower (normalize_name s) = normalize_name s.
Proof.
  rewrite normalize_name_tokens, lower_join, lower_split_lower. reflexivity.
Qed.

Lemma spaced_from_spaceless (t : string) : forall rest,
  spaceless t = true ->
  spaced_from false (t ++ rest)%string = spaced_from false rest.
Proof.
  induction t as [|c t IH]; intros rest H; [reflexivity|].
  simpl in H. apply andb_true_iff in H as [Hc Ht]. apply negb_true_iff in Hc.
  simpl. rewrite Hc. now apply IH.
Qed.

Lemma spaced_from_token (t rest : string) (b : bool) :
  token t ->
  spaced_from b (t ++ rest)%string = spaced_from false rest.
Proof.
  intros [Hne Hsp]. destruct t as [|c t]; [congruence|].
  simpl in Hsp. apply andb_true_iff in Hsp as [Hc Ht]. apply negb_true_iff in Hc.
  simpl. rewrite Hc. now apply spaced_from_spaceless.
Qed.

Lemma spaced_from_join (ts : list string) :
  Forall token ts -> ts <> [] -> spaced_from true (join " " ts) = true.
Proof.
  induction ts as [|t ts IH]; intros H Hne; [congruence|].
  inversion H as [|? ? Ht Hts]; subst.
  destruct ts as [|t' ts'].
  - simpl. rewrite <- (append_empty_r t). now rewrite spaced_from_token.
  - change (join " " (t :: t' :: ts'))
      with (t ++ String " " (join " " (t' :: ts')))%string.
    rewrite spaced_from_token by exact Ht.
    simpl. apply IH; [exact Hts | discriminate].
Qed.

Lemma single_spaced_join (ts : list string) :
  Forall token ts -> single_spaced (join " " ts) = true.
Proof.
  intros H. destruct ts as [|t ts]; [reflexivity|].
  assert (S : spaced_from true (join " " (t :: ts)) = true)
    by (apply spaced_from_join; [exact H | discriminate]).
  unfold single_spaced. destruct (join " " (t :: ts)); [reflexivity | exact S].
Qed.

Lemma single_spaced_normalize_name (s : string) :
  single_spaced (normalize_name s) = true.
Proof. rewrite normalize_name_tokens. apply single_spaced_join, split_tokens. Qed.

Lemma join_flush (w : string) : join " " (flush w) = w.
Proof. destruct w; reflexivity. Qed.

Lemma nonempty_append (w : string) (c : ascii) :
  nonempty (w ++ String c EmptyString) = true.
Proof. destruct w; reflexivity. Qed.

(** On a single-spaced stretch the scanning loop and the join undo each
    other. *)
Lemma join_split_from (s : string) : forall w,
  spaced_from (negb (nonempty w)) s = true ->
  join " " (split_from w s) = (w ++ s)%string.
Proof.
  induction s as [|c r IH]; intros w H.
  - simpl. rewrite append_empty_r. apply join_flush.
  - rewrite split_from_cons. simpl in H. destruct (isspace c) eqn:Ec.
    + apply andb_true_iff in H as [H Hr]. apply andb_true_iff in H as [Hc Hw].
      apply Ascii.eqb_eq in Hc. subst c.
      rewrite negb_involutive in Hw.
      assert (J : join " " (split_from EmptyString r) = r) by now apply (IH EmptyString).
      destruct w as [|d w]; [discriminate|]. simpl flush.
      destruct (split_from EmptyString r) as [|x xs] eqn:X.
      * simpl in J. subst r. discriminate.
      * change (join " " ([String d w] ++ x :: xs))
          with (String d w ++ String " " (join " " (x :: xs)))%string.
        now rewrite J.
    + rewrite IH.
      * now rewrite append_assoc.
      * now rewrite nonempty_append.
Qed.

Lemma normalize_name_of_key (k : string) :
  lower k = k -> single_spaced k = true -> normalize_name k = k.
Proof.
  intros Hl Hs. rewrite normalize_name_tokens, Hl.
  destruct k as [|c r]; [reflexivity|].
  unfold split. now rewrite join_split_from.
Qed.

(** X1. Every key is in canonical form: it is its own lower-casing, and
    its only whitespace is single spaces between tokens (none in front,
    none behind, no two in a row, no tab or other blank). *)
Theorem normalize_name_canonical (s : string) :
  lower (normalize_name s) = normalize_name s
  /\ single_spaced (normalize_name s) = true.
Proof.
  split; [apply lower_normalize_name | apply single_spaced_normalize_name].
Qed.

(** X2. The strings the normalizer leaves unchanged are exactly the
    lower-case, single-spaced ones. *)
Theorem normalize_name_fixed_points (k : string) :
  normalize_name k = k <-> lower k = k /\ single_spaced k = true.
Proof.
  split.
  - intros E. rewrite <- E. split;
      [apply lower_normalize_name | apply single_spaced_normalize_name].
  - intros [Hl Hs]. now apply normalize_name_of_key.
Qed.

Lemma normalize_name_fixed_points_witness :
  normalize_name "john doe" = "john doe"
  /\ lower "john doe" = "john doe" /\ single_spaced "john doe" = true.
Proof.
  split.
  - apply (proj2 (normalize_name_fixed_points "john doe")).
    split; reflexivity.
  - apply (proj1 (normalize_name_fixed_points "john doe")). reflexivity.
Defined.

(** X3. Two names have the same key exactly when their lower-cased token
    sequences are equal. *)
Theorem normalize_name_eq_iff (a b : string) :
  normalize_name a = normalize_name b <-> split (lower a) = split (lower b).
Proof.
  split; intros E.
  - rewrite <- !split_normalize_name. now rewrite E.
  - rewrite !normalize_name_tokens. now rewrite E.
Qed.

Lemma normalize_name_eq_iff_witness :
  normalize_name "  John   Doe " = normalize_name "john doe"
  /\ split (lower "JOHN DOE") = split (lower "john   doe").
Proof.
  split.
  - apply (proj2 (normalize_name_eq_iff "  John   Doe " "john doe")).
    reflexivity.
  - apply (proj1 (normalize_name_eq_iff "JOHN DOE" "john   doe")).
    reflexivity.
Defined.






End KeyFacts.

(** ** More on the matcher *)

Section MatcherMore.

Import PyStr Spec NerExtract.

Lemma normalize_name_again (s : string) :
  normalize_name (normalize_name s) = normalize_name s.
Proof.
  apply normalize_name_of_key;
    [apply lower_normalize_name | apply single_spaced_normalize_name].
Qed.

(** X5. The matcher gives the same answer for a detected name and for its
    key, whatever the roster argument is. *)
Theorem find_matching_uin_normalized (entity_text : string) (known_names : pyval) :
  find_matching_uin (normalize_name entity_text) known_names
  = find_matching_uin entity_text known_names.
Proof. unfold find_matching_uin. now rewrite normalize_name_again. Qed.

Lemma existsb_contains_sym (xs ys : list string) :
  existsb (contains ys) xs = existsb (contains xs) ys.
Proof.
  apply eq_true_iff_eq. rewrite !existsb_exists.
  split; intros (t & H1 & H2); apply contains_In in H2; exists t;
    (split; [exact H2 | now apply contains_In]).
Qed.

Lemma existsb_contains_self (ts : list string) :
  existsb (contains ts) ts = false -> ts = [].
Proof.
  destruct ts as [|t ts]; [reflexivity|]. intros H. exfalso.
  assert (T : existsb (contains (t :: ts)) (t :: ts) = true).
  { apply existsb_exists. exists t. split; [now left|].
    apply contains_In. now left. }
  congruence.
Qed.

(** The two tests of the scan amount to: a shared token, or two blank
    names. *)
Lemma matchesb_shares_token (e : string) (known : pyval) :
  matchesb (normalize_name e) known
  = shares_token e (display_name known)
    || (blank e && blank (display_name known)).
Proof.
  unfold matchesb, known_key, tokens, shares_token.
  rewrite !split_normalize_name.
  set (n := display_name known).
  destruct (existsb (contains (split (lower n))) (split (lower e))) eqn:S.
  - now rewrite orb_true_r.
  - rewrite orb_false_r. simpl. apply eq_true_iff_eq.
    rewrite String.eqb_eq, andb_true_iff. split.
    + intros E0.
      assert (E : split (lower e) = split (lower n))
        by (rewrite <- !split_normalize_name; now rewrite E0).
      rewrite <- E in S. apply existsb_contains_self in S.
      split; [|rewrite E in S]; apply split_nil in S;
        now rewrite blank_lower in S.
    + intros [He Hn]. apply normalize_name_blank in He, Hn. congruence.
Qed.

(** X6. What one iteration of the scan decides: a well-typed entry is
    taken when the detected name and the display name share a token once
    lower-cased, or when both are blank, and only then; the equality test
    on the keys adds nothing else. *)
Theorem find_matching_uin_shared_token (entity_text : string) (known : pyval)
    (rest : list pyval) :
  known_identity known = true ->
  find_matching_uin entity_text (PList (known :: rest))
  = if shares_token entity_text (display_name known)
       || (blank entity_text && blank (display_name known))
    then Ok (uin known)
    else find_matching_uin entity_text (PList rest).
Proof.
  intros Hk. rewrite !find_matching_uin_list, known_loop_cons by exact Hk.
  now rewrite matchesb_shares_token.
Qed.

Lemma find_matching_uin_shared_token_witness :
  find_matching_uin "Dr. JOHN" (PList [Examples.john_doe; Examples.john_smith])
  = Ok (PStr "1").
Proof.
  apply (find_matching_uin_shared_token "Dr. JOHN" Examples.john_doe
           [Examples.john_smith] eq_refl).
Defined.

Lemma shares_token_sym (a b : string) : shares_token a b = shares_token b a.
Proof. unfold shares_token. apply existsb_contains_sym. Qed.

Lemma known_loop_single (key : string) (name : string) (u : pyval) :
  u <> PNone ->
  known_loop key [PDict [("name", PStr name); ("uin", u)]] = Ok u
  <-> matchesb key (PDict [("name", PStr name); ("uin", u)]) = true.
Proof.
  intros Hu. rewrite known_loop_cons by reflexivity.
  destruct (matchesb key _); simpl; split; intros H;
    try reflexivity; try discriminate.
  injection H as H. congruence.
Qed.

(** X7. Matching is symmetric: a detected name [a] is matched by an entry
    named [b] exactly when a detected name [b] is matched by an entry
    named [a]. *)
Theorem find_matching_uin_symmetric (a b : string) (ua ub : pyval) :
  ua <> PNone -> ub <> PNone ->
  find_matching_uin a (PList [PDict [("name", PStr b); ("uin", ub)]]) = Ok ub
  <-> find_matching_uin b (PList [PDict [("name", PStr a); ("uin", ua)]]) = Ok ua.
Proof.
  intros Ha Hb. rewrite !find_matching_uin_list.
  rewrite (known_loop_single _ b ub Hb), (known_loop_single _ a ua Ha).
  rewrite !matchesb_shares_token. simpl display_name.
  now rewrite shares_token_sym, (andb_comm (blank a)).
Qed.

Lemma find_matching_uin_symmetric_witness :
  find_matching_uin "John Smith" (PList [PDict [("name", PStr "john"); ("uin", PStr "5")]])
  = Ok (PStr "5").
Proof.
  apply (proj2 (find_matching_uin_symmetric "John Smith" "john"
                  (PStr "8") (PStr "5") ltac:(discriminate) ltac:(discriminate))).
  reflexivity.
Defined.

Lemma known_loop_app (key : string) (post : list pyval) : forall pre,
  forallb known_identity pre = true ->
  known_loop key (pre ++ post)
  = if existsb (matchesb key) pre then known_loop key pre
    else known_loop key post.
Proof.
  induction pre as [|k pre IH]; intros Hty; [reflexivity|].
  simpl in Hty. apply andb_true_iff in Hty as [Hk Hty].
  simpl app. simpl existsb. rewrite !known_loop_cons by exact Hk.
  destruct (matchesb key k); [reflexivity | now apply IH].
Qed.

(** X8. Scanning two rosters one after the other: when some entry of the
    first (well-typed) part matches, the answer is that of the first part
    alone and the second part, whatever it holds, is never looked at;
    otherwise the answer is that of the second part alone. *)
Theorem find_matching_uin_app (entity_text : string) (pre post : list pyval) :
  forallb known_identity pre = true ->
  find_matching_uin entity_text (PList (pre ++ post))
  = if existsb (matchesb (normalize_name entity_text)) pre
    then find_matching_uin entity_text (PList pre)
    else find_matching_uin entity_text (PList post).
Proof. intros H. rewrite !find_matching_uin_list. now apply known_loop_app. Qed.

Lemma find_matching_uin_app_witness :
  find_matching_uin "John" (PList (Examples.smith_then_doe ++ [PNone; PInt 3]))
  = Ok (PStr "1").
Proof.
  apply (find_matching_uin_app "John" Examples.smith_then_doe [PNone; PInt 3]
           eq_refl).
Defined.

(** X9. An entry the scan reaches (every entry before it well-typed, none
    of them matching) that is not a dict raises [AttributeError] for
    [get]; a dict whose ['name'] is not a string raises [AttributeError]
    for [lower].  What follows the entry plays no part. *)
Theorem find_matching_uin_ill_typed (entity_text : string)
    (pre : list pyval) (bad : pyval) (post : list pyval) :
  forallb known_identity pre = true ->
  existsb (matchesb (normalize_name entity_text)) pre = false ->
  (is_dict bad = false ->
   find_matching_uin entity_text (PList (pre ++ bad :: post))
   = Raise (no_attribute bad "get"))
  /\ (forall items v,
        bad = PDict items -> assoc "name" items = Some v -> is_str v = false ->
        find_matching_uin entity_text (PList (pre ++ bad :: post))
        = Raise (no_attribute v "lower")).
Proof.
  intros Hty Hno. rewrite find_matching_uin_list, known_loop_app, Hno by exact Hty.
  split.
  - intros Hd. destruct bad; try discriminate; reflexivity.
  - intros items v -> Hv Hs. simpl. rewrite Hv.
    destruct v; try discriminate; reflexivity.
Qed.

Lemma find_matching_uin_ill_typed_witness :
  find_matching_uin "Bob" (PList ([Examples.john_doe] ++ PStr "Bob" :: []))
  = Raise (AttributeError "'str' object has no attribute 'get'")
  /\ find_matching_uin "Bob"
       (PList ([Examples.john_doe] ++ PDict [("name", PInt 7)] :: [Examples.john_smith]))
     = Raise (AttributeError "'int' object has no attribute 'lower'").
Proof.
  split.
  - apply (proj1 (find_matching_uin_ill_typed "Bob" [Examples.john_doe]
                    (PStr "Bob") [] eq_refl eq_refl) eq_refl).
  - apply (proj2 (find_matching_uin_ill_typed "Bob" [Examples.john_doe]
                    (PDict [("name", PInt 7)]) [Examples.john_smith]
                    eq_refl eq_refl)
             [("name", PInt 7)] (PInt 7) eq_refl eq_refl eq_refl).
Defined.

Lemma known_loop_chars (key : string) (s : string) :
  known_loop key (chars s)
  = if nonempty s then Raise (AttributeError "'str' object has no attribute 'get'")
    else Ok PNone.
Proof. destruct s; reflexivity. Qed.

(** X10. A roster argument that is not a list: a string or a dict is
    iterated, so an empty one gives [None] and any other raises
    [AttributeError] at its first character or key; a number, a boolean
    or [None] raises [TypeError]. *)
Theorem find_matching_uin_not_a_list (entity_text : string) :
  (forall s,
      find_matching_uin entity_text (PStr s)
      = if nonempty s
        then Raise (AttributeError "'str' object has no attribute 'get'")
        else Ok PNone)
  /\ (forall items,
        find_matching_uin entity_text (PDict items)
        = match items with
          | [] => Ok PNone
          | _ => Raise (AttributeError "'str' object has no attribute 'get'")
          end)
  /\ (forall v,
        is_list v = false -> is_str v = false -> is_dict v = false ->
        find_matching_uin entity_text v
        = Raise (TypeError ("'" ++ type_name v ++ "' object is not iterable"))).
Proof.
  split; [|split].
  - intros s. unfold find_matching_uin. simpl. apply known_loop_chars.
  - intros [|kv items]; reflexivity.
  - intros v Hl Hs Hd. destruct v; try discriminate; reflexivity.
Qed.

Lemma find_matching_uin_not_a_list_witness :
  find_matching_uin "Bob" PNone
  = Raise (TypeError "'NoneType' object is not iterable").
Proof.
  apply (proj2 (proj2 (find_matching_uin_not_a_list "Bob")) PNone
           eq_refl eq_refl eq_refl).
Defined.

Lemma matchesb_same_identity (key : string) (k1 k2 : pyval) :
  known_key k1 = known_key k2 -> matchesb key k1 = matchesb key k2.
Proof. unfold matchesb. now intros ->. Qed.

(** X11. The matcher sees a roster only through the keys and the UINs of
    its entries: two well-typed rosters that agree on these, entry by
    entry, give the same answer; the casing and spacing of display names
    and any other field make no difference. *)
Theorem find_matching_uin_same_identities (entity_text : string)
    (roster1 roster2 : list pyval) :
  Forall2 same_identity roster1 roster2 ->
  find_matching_uin entity_text (PList roster1)
  = find_matching_uin entity_text (PList roster2).
Proof.
  intros H. rewrite !find_matching_uin_list.
  induction H as [|k1 k2 r1 r2 (T1 & T2 & K & U) _ IH]; [reflexivity|].
  rewrite !known_loop_cons by assumption.
  rewrite (matchesb_same_identity _ k1 k2 K), U, IH. reflexivity.
Qed.

Lemma find_matching_uin_same_identities_witness :
  find_matching_uin "doe"
    (PList [PDict [("uin", PStr "1"); ("dept", PStr "HR"); ("name", PStr "  JOHN  doe")]])
  = find_matching_uin "doe" (PList [Examples.john_doe]).
Proof.
  apply (find_matching_uin_same_identities "doe").
  constructor; [|constructor].
  repeat split.
Defined.

End MatcherMore.

(** ** More on the extractor *)

Section ExtractorMore.

Import PyStr Spec NerExtract.

Variable nlp : pyval -> result Doc.

(** What the loop returns is the list it started with, followed by the
    Mentions of the PERSON spans. *)
Lemma ents_loop_ok (known_names : pyval) (spans : list Span) :
  forall acc out,
  ents_loop known_names spans acc = Ok out ->
  exists ms,
    out = acc ++ ms
    /\ Forall2 (mention_of known_names) (filter is_person spans) ms.
Proof.
  induction spans as [|ent rest IH]; simpl; intros acc out E.
  - exists []. injection E as <-. rewrite app_nil_r. split; [reflexivity | constructor].
  - unfold is_person at 1. destruct (String.eqb (label_ ent) "PERSON").
    + destruct (find_matching_uin (text ent) known_names) as [u|] eqn:Fu;
        [|discriminate].
      destruct (IH _ _ E) as (ms & -> & F).
      exists (entity_dict ent u :: ms). split.
      * now rewrite <- app_assoc.
      * constructor; [|exact F]. exists u. split; [exact Fu | reflexivity].
    + now apply IH.
Qed.

Lemma ents_loop_app (known_names : pyval) (spans2 : list Span) :
  forall spans1 acc,
  ents_loop known_names (spans1 ++ spans2) acc
  = match ents_loop known_names spans1 acc with
    | Ok mid => ents_loop known_names spans2 mid
    | Raise e => Raise e
    end.
Proof.
  induction spans1 as [|ent rest IH]; intros acc; [reflexivity|].
  simpl. destruct (String.eqb (label_ ent) "PERSON"); [|apply IH].
  destruct (find_matching_uin (text ent) known_names); [apply IH | reflexivity].
Qed.

Lemma ents_loop_from (known_names : pyval) (spans : list Span) :
  forall acc,
  ents_loop known_names spans acc
  = match ents_loop known_names spans [] with
    | Ok ms => Ok (acc ++ ms)
    | Raise e => Raise e
    end.
Proof.
  induction spans as [|ent rest IH]; intros acc.
  - simpl. now rewrite app_nil_r.
  - simpl. destruct (String.eqb (label_ ent) "PERSON"); [|apply IH].
    destruct (find_matching_uin (text ent) known_names) as [u|]; [|reflexivity].
    rewrite (IH (acc ++ [entity_dict ent u])), (IH [entity_dict ent u]).
    destruct (ents_loop known_names rest []); [|reflexivity].
    now rewrite <- app_assoc.
Qed.

Lemma ents_loop_succeeds (known_names : pyval) (spans : list Span) :
  Forall (fun ent => exists u, find_matching_uin (text ent) known_names = Ok u)
         (filter is_person spans) ->
  forall acc, exists out, ents_loop known_names spans acc = Ok out.
Proof.
  induction spans as [|ent rest IH]; simpl; intros H acc; [now eexists|].
  unfold is_person in H at 1. destruct (String.eqb (label_ ent) "PERSON").
  - inversion H as [|? ? [u Hu] H']; subst. rewrite Hu. now apply IH.
  - now apply IH.
Qed.

Lemma Forall2_mention_of_succeeds (known_names : pyval) (spans : list Span)
    (ms : list pyval) :
  Forall2 (mention_of known_names) spans ms ->
  Forall (fun ent => exists u, find_matching_uin (text ent) known_names = Ok u)
         spans.
Proof.
  induction 1 as [|ent m spans ms (u & Hu & _) _ IH]; constructor;
    [now exists u | exact IH].
Qed.

(** X12. Whatever the roster argument holds, the extractor returns a list
    exactly when the matcher returns for every PERSON span; the list then
    has one Mention per PERSON span, in span order. *)
Theorem extract_person_entities_succeeds_iff (text : pyval) (doc : Doc)
    (known_names : pyval) :
  nlp text = Ok doc ->
  ((exists ms, extract_person_entities nlp text known_names = Ok ms)
   <-> Forall (fun ent => exists u,
                  find_matching_uin (NerExtract.text ent) known_names = Ok u)
              (filter is_person (ents doc)))
  /\ (forall ms,
        extract_person_entities nlp text known_names = Ok ms ->
        Forall2 (mention_of known_names) (filter is_person (ents doc)) ms
        /\ length ms = length (filter is_person (ents doc))).
Proof.
  intros Hdoc. unfold extract_person_entities. rewrite Hdoc. simpl.
  assert (S : forall ms, ents_loop known_names (ents doc) [] = Ok ms ->
                Forall2 (mention_of known_names) (filter is_person (ents doc)) ms).
  { intros ms E. destruct (ents_loop_ok _ _ _ _ E) as (ms' & -> & F). exact F. }
  split; [split|].
  - intros (ms & E). eapply Forall2_mention_of_succeeds. apply (S ms E).
  - intros H. now apply ents_loop_succeeds.
  - intros ms E. split; [now apply S|].
    symmetry. eapply Forall2_length. now apply S.
Qed.

(** X13. The first PERSON span on which the matcher raises ends the
    extraction with that exception; no list is returned. *)
Theorem extract_person_entities_raises (text : pyval) (doc : Doc)
    (known_names : pyval) (pre : list Span) (ent : Span) (post : list Span)
    (e : exn) :
  nlp text = Ok doc ->
  ents doc = pre ++ ent :: post ->
  Forall (fun x => exists u,
              find_matching_uin (NerExtract.text x) known_names = Ok u)
         (filter is_person pre) ->
  is_person ent = true ->
  find_matching_uin (NerExtract.text ent) known_names = Raise e ->
  extract_person_entities nlp text known_names = Raise e.
Proof.
  intros Hdoc Hents Hpre Hp He. unfold extract_person_entities.
  rewrite Hdoc. simpl. rewrite Hents, ents_loop_app.
  destruct (ents_loop_succeeds known_names pre Hpre []) as [mid ->].
  simpl. unfold is_person in Hp. now rewrite Hp, He.
Qed.

(** X14. Extraction goes span by span: when the spans of a document are
    those of a first document followed by those of a second, its result
    is the result for the first followed by the result for the second,
    and it raises when one of them does. *)
Theorem extract_person_entities_concat (text text1 text2 : pyval)
    (doc doc1 doc2 : Doc) (known_names : pyval) :
  nlp text = Ok doc -> nlp text1 = Ok doc1 -> nlp text2 = Ok doc2 ->
  ents doc = ents doc1 ++ ents doc2 ->
  extract_person_entities nlp text known_names
  = (a <- extract_person_entities nlp text1 known_names ;;
     b <- extract_person_entities nlp text2 known_names ;;
     Ok (a ++ b)).
Proof.
  intros H H1 H2 E. unfold extract_person_entities.
  rewrite H, H1, H2. simpl. rewrite E, ents_loop_app.
  destruct (ents_loop known_names (ents doc1) []) as [a|]; [|reflexivity].
  apply ents_loop_from.
Qed.

End ExtractorMore.

Lemma extract_person_entities_succeeds_iff_witness :
  exists ms,
    NerExtract.extract_person_entities Examples.jane_acme_nlp (PStr "Jane at Acme")
      (PList [Examples.identity "Jane" "42"; PInt 5]) = Ok ms.
Proof.
  apply (proj2 (proj1 (extract_person_entities_succeeds_iff
                         Examples.jane_acme_nlp (PStr "Jane at Acme")
                         (NerExtract.mkDoc [Examples.jane_span; Examples.acme_span])
                         (PList [Examples.identity "Jane" "42"; PInt 5])
                         eq_refl))).
  constructor; [|constructor]. exists (PStr "42"). reflexivity.
Defined.

Lemma extract_person_entities_raises_witness :
  NerExtract.extract_person_entities Examples.jane_acme_nlp (PStr "Jane at Acme")
    PNone
  = Raise (TypeError "'NoneType' object is not iterable").
Proof.
  apply (extract_person_entities_raises Examples.jane_acme_nlp
           (PStr "Jane at Acme")
           (NerExtract.mkDoc [Examples.jane_span; Examples.acme_span])
           PNone [] Examples.jane_span [Examples.acme_span]
           (TypeError "'NoneType' object is not iterable")
           eq_refl eq_refl (Forall_nil _) eq_refl eq_refl).
Defined.

Lemma extract_person_entities_concat_witness :
  NerExtract.extract_person_entities Examples.by_text_nlp (PStr "Jane at Acme")
    (PList [Examples.identity "Jane" "42"])
  = (a <- NerExtract.extract_person_entities Examples.by_text_nlp (PStr "Jane")
            (PList [Examples.identity "Jane" "42"]) ;;
     b <- NerExtract.extract_person_entities Examples.by_text_nlp (PStr "Acme")
            (PList [Examples.identity "Jane" "42"]) ;;
     Ok (a ++ b)).
Proof.
  apply (extract_person_entities_concat Examples.by_text_nlp
           (PStr "Jane at Acme") (PStr "Jane") (PStr "Acme")
           (NerExtract.mkDoc [Examples.jane_span; Examples.acme_span])
           (NerExtract.mkDoc [Examples.jane_span])
           (NerExtract.mkDoc [Examples.acme_span])
           (PList [Examples.identity "Jane" "42"])
           eq_refl eq_refl eq_refl eq_refl).
Defined.

(** ** The request and the run *)

Section ScriptMore.

Import PyStr Spec NerExtract.

Variable nlp : pyval -> result Doc.
Variable json_loads : string -> result pyval.



(** The entities of a request without roster entries. *)
Lemma ents_loop_empty_roster (spans : list Span) : forall acc,
  ents_loop (PList []) spans acc
  = Ok (acc ++ map (fun ent => mention (NerExtract.text ent) (start_char ent)
                                       (end_char ent) PNone)
                   (filter is_person spans)).
Proof.
  induction spans as [|ent rest IH]; intros acc; simpl.
  - now rewrite app_nil_r.
  - unfold is_person at 1. destruct (String.eqb (label_ ent) "PERSON").
    + rewrite IH, <- app_assoc. reflexivity.
    + apply IH.
Qed.

(** X16. A request that decodes to an object, whose text the recognizer
    accepts and whose ['known_names'] is a well-typed roster, ends with
    exit status 0 after printing one document, [{"entities": ...}], with
    one Mention per PERSON span in span order; a missing ['text'] is the
    empty string. *)
Theorem main_success (stdin : string) (items : list (string * pyval))
    (doc : Doc) (roster : list pyval) :
  json_loads stdin = Ok (PDict items) ->
  nlp (match assoc "text" items with Some v => v | None => PStr EmptyString end)
  = Ok doc ->
  assoc "known_names" items = Some (PList roster) ->
  forallb known_identity roster = true ->
  exists ms,
    main nlp json_loads stdin = mkOutcome [PDict [("entities", PList ms)]] 0
    /\ Forall2 (mention_of (PList roster)) (filter is_person (ents doc)) ms.
Proof.
  intros Hj Hn Hk Hty.
  destruct (ents_loop_typed roster (ents doc) Hty []) as (ms & E & F).
  exists ms. split; [|exact F].
  unfold main, main_try, extract_person_entities, bind.
  rewrite Hj. simpl. rewrite Hk, Hn. simpl in E. now rewrite E.
Qed.

(** X17. A request with no ['known_names'], or with an empty one, is
    served with the empty roster: every PERSON span comes back with a
    [None] UIN, and the run ends with exit status 0. *)
Theorem main_without_roster (stdin : string) (items : list (string * pyval))
    (doc : Doc) :
  json_loads stdin = Ok (PDict items) ->
  nlp (match assoc "text" items with Some v => v | None => PStr EmptyString end)
  = Ok doc ->
  assoc "known_names" items = None
  \/ assoc "known_names" items = Some (PList []) ->
  main nlp json_loads stdin
  = mkOutcome
      [PDict [("entities",
               PList (map (fun ent => mention (NerExtract.text ent) (start_char ent)
                                              (end_char ent) PNone)
                          (filter is_person (ents doc))))]] 0.
Proof.
  intros Hj Hn Hk.
  unfold main, main_try, extract_person_entities, bind.
  rewrite Hj. simpl. destruct Hk as [-> | ->]; rewrite Hn;
    now rewrite ents_loop_empty_roster.
Qed.

(** X18. A request that is valid JSON but not an object (a list, a
    string, a number, [true], [null]) is answered with one error object,
    [Processing error: '<type>' object has no attribute 'get'], and exit
    status 1; the recognizer is not called. *)
Theorem main_not_an_object (stdin : string) (input_data : pyval) :
  json_loads stdin = Ok input_data ->
  is_dict input_data = false ->
  main nlp json_loads stdin
  = mkOutcome
      [error_object ("Processing error: '" ++ type_name input_data
                     ++ "' object has no attribute 'get'")] 1.
Proof.
  intros Hj Hd. unfold main, main_try, bind. rewrite Hj.
  destruct input_data; try discriminate; reflexivity.
Qed.

End ScriptMore.


Lemma main_success_witness :
  exists ms,
    NerExtract.main Examples.by_text_nlp Examples.sample_loads
      Examples.jane_request
    = NerExtract.mkOutcome [PDict [("entities", PList ms)]] 0
    /\ Forall2 (Spec.mention_of (PList [Examples.identity "Jane" "42"]))
                (filter Spec.is_person [Examples.jane_span]) ms.
Proof.
  apply (main_success Examples.by_text_nlp Examples.sample_loads
           Examples.jane_request
           [("text", PStr "Jane");
            ("known_names", PList [Examples.identity "Jane" "42"])]
           (NerExtract.mkDoc [Examples.jane_span])
           [Examples.identity "Jane" "42"]
           eq_refl eq_refl eq_refl eq_refl).
Defined.

Lemma main_without_roster_witness :
  NerExtract.main Examples.jane_acme_nlp Examples.sample_loads "{}"
  = NerExtract.mkOutcome
      [PDict [("entities", PList [Spec.mention "Jane" 0 4 PNone])]] 0.
Proof.
  apply (main_without_roster Examples.jane_acme_nlp Examples.sample_loads
           "{}" [] (NerExtract.mkDoc [Examples.jane_span; Examples.acme_span])
           eq_refl eq_refl (or_introl eq_refl)).
Defined.

Lemma main_not_an_object_witness :
  NerExtract.main Examples.jane_acme_nlp Examples.sample_loads "[]"
  = NerExtract.mkOutcome
      [NerExtract.error_object
         "Processing error: 'list' object has no attribute 'get'"] 1.
Proof.
  apply (main_not_an_object Examples.jane_acme_nlp Examples.sample_loads
           "[]" (PList []) eq_refl eq_refl).
Defined.

(** ** More on the sanitizer *)

Section SanitizerMore.

Import SanitizePdf.








(** X22. With a destination on the command line, an input that does not
    exist makes [main] print [Error: File not found: <input>], and an
    input that is not a PDF [Error sanitizing PDF: <reason>]; either way
    the exit status is 1 and no file is written. *)
Theorem sanitize_main_bad_input (script_name input_path output_path : string)
    (more : list string) (fs : filesystem) :
  (fs input_path = None ->
   main (script_name :: input_path :: output_path :: more) fs
   = mkOutcome [CrossMark ("Error: File not found: " ++ input_path)] 1 fs)
  /\ (forall why,
        fs input_path = Some (NotPdf why) ->
        main (script_name :: input_path :: output_path :: more) fs
        = mkOutcome [CrossMark ("Error sanitizing PDF: " ++ why)] 1 fs).
Proof.
  split; [intros H | intros why H];
    unfold main, sanitize_pdf, PdfReader, argv_at; simpl; now rewrite H.
Qed.

Lemma sanitize_main_bad_input_witness :
  main ["sanitize_pdf.py"; "missing.pdf"; "clean.pdf"] Examples.one_report_disk
  = mkOutcome [CrossMark "Error: File not found: missing.pdf"] 1
      Examples.one_report_disk.
Proof.
  apply (proj1 (sanitize_main_bad_input "sanitize_pdf.py" "missing.pdf"
                  "clean.pdf" [] Examples.one_report_disk) eq_refl).
Defined.



End SanitizerMore.

(** ** Requests the roster plays no part in *)

Section RequestMore.

Import Spec NerExtract.

Variable nlp : pyval -> result Doc.
Variable json_loads : string -> result pyval.

(** X24. When the recognizer finds no PERSON span, the roster is never
    read: whatever ['known_names'] holds (a list, [null], a number, ...),
    [main] prints [{"entities": []}] and ends with exit status 0. *)
Theorem main_no_person (stdin : string) (items : list (string * pyval))
    (doc : Doc) :
  json_loads stdin = Ok (PDict items) ->
  nlp (match assoc "text" items with Some v => v | None => PStr EmptyString end)
  = Ok doc ->
  filter is_person (ents doc) = [] ->
  main nlp json_loads stdin = mkOutcome [PDict [("entities", PList [])]] 0.
Proof.
  intros Hj Hn Hp.
  unfold main, main_try, extract_person_entities, bind.
  rewrite Hj. simpl. rewrite Hn.
  now rewrite (ents_loop_no_person _ _ Hp).
Qed.

(** X25. A failure of the recognizer is fatal: when [nlp] raises on the
    text of a request that decoded to an object, [main] prints the single
    error object [Processing error: <str(e)>] and ends with exit status
    1. *)
Theorem main_recognizer_failure (stdin : string)
    (items : list (string * pyval)) (e : exn) :
  json_loads stdin = Ok (PDict items) ->
  nlp (match assoc "text" items with Some v => v | None => PStr EmptyString end)
  = Raise e ->
  (forall msg, e <> JSONDecodeError msg) ->
  main nlp json_loads stdin
  = mkOutcome [error_object ("Processing error: " ++ str_of_exn e)] 1.
Proof.
  intros Hj Hn He.
  unfold main, main_try, extract_person_entities, bind.
  rewrite Hj. simpl. rewrite Hn.
  destruct e; try reflexivity. now elim (He msg).
Qed.

End RequestMore.

Lemma main_no_person_witness :
  NerExtract.main Examples.by_text_nlp Examples.sample_loads Examples.acme_request
  = NerExtract.mkOutcome [PDict [("entities", PList [])]] 0.
Proof.
  apply (main_no_person Examples.by_text_nlp Examples.sample_loads
           Examples.acme_request
           [("text", PStr "Acme"); ("known_names", PInt 5)]
           (NerExtract.mkDoc [Examples.acme_span]) eq_refl eq_refl eq_refl).
Defined.

Lemma main_recognizer_failure_witness :
  NerExtract.main Examples.by_text_nlp Examples.sample_loads Examples.number_request
  = NerExtract.mkOutcome
      [NerExtract.error_object
         "Processing error: [E1041] Expected a string, Doc, or bytes as input"] 1.
Proof.
  apply (main_recognizer_failure Examples.by_text_nlp Examples.sample_loads
           Examples.number_request [("text", PInt 5)]
           (OtherException "[E1041] Expected a string, Doc, or bytes as input")
           eq_refl eq_refl).
  discriminate.
Defined.
